(** * The item resolution helper: index, cold store, fetch

    A shallow embedding of [getMissingDependents], [getDependentUris] and
    [ensureLoaded], and the properties of the three-tier lookup they
    implement.

    Entities and the other JavaScript objects are finite maps from property
    names to values; a read under a computed name that finds no own
    property goes on to [Object.prototype].  [ensureLoaded] is a tree of the calls it makes on its
    collaborators (the store, the console, the cold store, the fetch
    delegate); an event loop runs such trees against a [world] and yields
    what happened, one list of events per turn of the loop. *)

From Stdlib Require Import Ascii String.
From stdpp Require Import gmap strings list fin_maps pretty sorting.

Set Warnings "-register-all".

(** ** Values *)

(** The JavaScript values that occur in entities and action payloads. *)
Inductive value : Type :=
| VUndefined
| VNull
| VBool (b : bool)
| VNum (n : Z)
| VStr (s : string)
| VArr (elems : list value)
| VObj (fields : gmap string value).

(** An entity is a plain data object, as the store and the cold store
    hold them: its own properties, by name. *)
Abbreviation entity := (gmap string value).

(** [o.k] for a name [k] written in the source ([uri], [name], [ui] ...):
    none of these is a name of [Object.prototype], so that a property which
    is not the object's own reads as [undefined]. *)
Definition get (o : gmap string value) (k : string) : value :=
  default VUndefined (o !! k).

(** [v === undefined || v === null] *)
Definition isUndefinedOrNull (v : value) : bool :=
  match v with
  | VUndefined | VNull => true
  | _ => false
  end.

(** [ToBoolean]; the numbers of the model are integers. *)
Definition truthy (v : value) : bool :=
  match v with
  | VUndefined | VNull => false
  | VBool b => b
  | VNum n => negb (n =? 0)%Z
  | VStr s => negb (String.eqb s "")
  | VArr _ | VObj _ => true
  end.

(** ** Inherited properties *)

(** The names under which every plain object finds a property of
    [Object.prototype] when it has none of its own. *)
Definition objectPrototypeNames : list string :=
  ["constructor"; "__defineGetter__"; "__defineSetter__"; "hasOwnProperty";
   "__lookupGetter__"; "__lookupSetter__"; "isPrototypeOf";
   "propertyIsEnumerable"; "toString"; "valueOf"; "__proto__";
   "toLocaleString"].

(** What the engine supplies.  [builtin k] is the function or object that
    [Object.prototype] holds under its name [k], and [properties v] stands
    for a truthy value that is no plain object (a string, a number, an
    array); either is given as the map of the properties that can be read
    from it before the lookup reaches [Object.prototype]. *)
Class Engine : Type := {
  builtin : string → entity;
  properties : value → entity;
}.

Section Reading.

Context {engine : Engine}.

(** What a name that is not an own property reads as. *)
Definition inherited (k : string) : value :=
  if decide (k ∈ objectPrototypeNames) then VObj (builtin k)
  else VUndefined.

(** [o[k]] for a computed name [k]: the own property, else the one of
    [Object.prototype], else [undefined]. *)
Definition read (o : gmap string value) (k : string) : value :=
  match o !! k with
  | Some v => v
  | None => inherited k
  end.

(** A value read as an item: falsy values pass for no item. *)
Definition asItem (v : value) : option entity :=
  if truthy v
  then Some (match v with VObj o => o | _ => properties v end)
  else None.

(** ** The dependent-name pattern

    The regular expression of [getUrisOfDependent] is the literal [_uri]
    with a greedy dot-star group on either side. *)

(** [.] matches every character but a line terminator. *)
Definition isLineTerminator (c : ascii) : bool :=
  (Ascii.eqb c "010" || Ascii.eqb c "013")%char.

(** The pattern tried at the start of [s]: the first group takes some
    characters of the line, then [_uri] has to follow; the closing group
    matches whatever is left, the empty string included. *)
Fixpoint matchHere (s : string) : bool :=
  String.prefix "_uri" s ||
  match s with
  | EmptyString => false
  | String c s' => negb (isLineTerminator c) && matchHere s'
  end.

(** [dep.match(new RegExp(...))] is truthy: the pattern is not anchored, so
    every start index is tried. *)
Fixpoint matchUriPattern (s : string) : bool :=
  matchHere s ||
  match s with
  | EmptyString => false
  | String _ s' => matchUriPattern s'
  end.

(** ** Dependent inspection *)

(** [dependents = []] and [fullDependents = []] in the parameter list: an
    omitted list is the empty one.  [item] is [None] for a falsy item. *)
Definition getMissingDependents
    (item : option entity) (dependents fullDependents : option (list string))
    (full : bool) : list string :=
  let dependents := default [] dependents in
  let fullDependents := default [] fullDependents in
  let allDependents := dependents ++ fullDependents in
  match item with
  | None => allDependents
  | Some item =>
      if full
      then List.filter (λ dep, isUndefinedOrNull (read item dep)) allDependents
      else List.filter (λ dep, isUndefinedOrNull (read item dep)) dependents
  end.

Definition getUrisOfDependent (item : entity) (dep : string) : list value :=
  if negb (matchUriPattern dep) then []
  else match read item dep with
       | VArr uris => uris
       | _ => []
       end.

Definition getDependentUris
    (item : option entity) (dependents fullDependents : option (list string))
    : list value :=
  let dependents := default [] dependents in
  let fullDependents := default [] fullDependents in
  match item with
  | None => []
  | Some item =>
      fold_left (λ acc dep, acc ++ getUrisOfDependent item dep)
                (dependents ++ fullDependents) []
  end.

End Reading.

(** ** Actions, requests and the store *)

(** What [ensureLoaded] hands to [store.dispatch]: the action creators of
    [services/ui], [services/core] and [services/mopidy] applied to their
    arguments.  The creators are not part of this module; an action is
    recorded as the creator called and what it was called with. *)
Inductive action : Type :=
| setLoading (uri : string) (loading : bool)
| stopLoading (uri : string)
| loadItems (type : string) (uris : list value)
| restoreItemsFromColdStore (items : list entity)
| enqueueURIs (payload : gmap string value)
| playURIs (payload : gmap string value).

(** [action.options] *)
Record Options : Type := {
  forceRefetch : bool;
  full : bool;
  callbackAction : option (gmap string value);
}.

(** The [action] that asks for an item: [{ uri, options }]. *)
Record LoadAction : Type := {
  uri : string;
  options : Options;
}.

(** The argument of [ensureLoaded] without its two collaborators [store]
    and [fetch], which are part of the [world].  [None] is an omitted
    property, for which the parameter list has a default. *)
Record Args : Type := {
  containerName : option string;
  loadAction : LoadAction;
  dependents : option (list string);
  fullDependents : option (list string);
  type : string;
}.

(** [store.getState()], as far as [ensureLoaded] looks into it: [core] and
    its named containers of entities by URI. *)
Record State : Type := {
  core : option (gmap string (gmap string entity));
}.

(** ** Tasks *)

(** The calls [ensureLoaded] makes on its collaborators, in program order. *)
Inductive event : Type :=
| EvGetState
| EvDispatch (a : action)
| EvFetch
| EvInfo (message : string) (extra : list value)
| EvGetItem (key : value).

(** A piece of code as the tree of its collaborator calls.  [GetItemThen]
    is [localForage.getItem(key).then(cb)] and [AllGetItemThen] is
    [Promise.all(keys.map((key) => localForage.getItem(key))).then(cb)]:
    both register [cb] for a later turn and go on with [k] at once. *)
Inductive task : Type :=
| Return
| GetState (k : State → task)
| Dispatch (a : action) (k : task)
| Fetch (k : task)
| Info (message : string) (extra : list value) (k : task)
| GetItemThen (key : value) (cb : option entity → task) (k : task)
| AllGetItemThen (keys : list value) (cb : list (option entity) → task)
    (k : task).

(** A statement is a task with a hole for what runs after it. *)
Definition when (b : bool) (s : task → task) : task → task :=
  if b then s else id.

Declare Scope task_scope.
Delimit Scope task_scope with task.
Notation "s ;; k" := (s k)
  (at level 100, k at level 200, only parsing, right associativity)
  : task_scope.

(** One call after another: [q] takes the place of [p]'s final return, in
    the turn in which [p] is called, not in its callbacks. *)
Fixpoint andThen (p q : task) : task :=
  match p with
  | Return => q
  | GetState k => GetState (λ st, andThen (k st) q)
  | Dispatch a k => Dispatch a (andThen k q)
  | Fetch k => Fetch (andThen k q)
  | Info m x k => Info m x (andThen k q)
  | GetItemThen key cb k => GetItemThen key cb (andThen k q)
  | AllGetItemThen keys cb k => AllGetItemThen keys cb (andThen k q)
  end.

(** ** ensureLoaded *)

(** [container[uri]] in a container of the store: the entry under [uri],
    else what [Object.prototype] has under that name. *)
Definition entryOf {engine : Engine} (container : gmap string entity)
    (uri : string) : option entity :=
  match container !! uri with
  | Some item => Some item
  | None =>
      if decide (uri ∈ objectPrototypeNames) then Some (builtin uri)
      else None
  end.

(** The destructuring of [store.getState()]: [core] and the container
    default to [{}] when they are [undefined], so that a missing level
    gives an [undefined] item.  A container name that the store does not
    have but [Object.prototype] does is not [undefined]: that built-in is
    then the container. *)
Definition indexItem {engine : Engine} (state : State)
    (containerName uri : string) : option entity :=
  match default ∅ (core state) !! containerName with
  | Some container => entryOf container uri
  | None =>
      if decide (containerName ∈ objectPrototypeNames)
      then asItem (read (builtin containerName) uri)
      else entryOf ∅ uri
  end.

(** The double quote of the console messages. *)
Definition dquote : string := String (ascii_of_nat 34) EmptyString.

(** lodash's [compact] on what the cold store returned: entities are
    truthy and [null] is dropped. *)
Definition compact {A} (l : list (option A)) : list A := omap id l.

Section EnsureLoaded.

Context {engine : Engine}.

(** [formatContext] of [./format], which is not part of this module. *)
Variable formatContext : entity → value.

(** [{ uris: [item.uri], from: formatContext(item), ...callbackAction }]:
    the properties spread last win. *)
Definition callbackPayload (callbackAction : gmap string value)
    (item : entity) : gmap string value :=
  callbackAction ∪
    <["uris" := VArr [get item "uri"]]> (<["from" := formatContext item]> ∅).

Definition runCallback (callbackAction : gmap string value) (item : entity)
    : task → task :=
  match get callbackAction "name" with
  | VStr name =>
      if String.eqb name "enqueue"
      then Dispatch (enqueueURIs (callbackPayload callbackAction item))
      else if String.eqb name "play"
      then Dispatch (playURIs (callbackPayload callbackAction item))
      else id
  | _ => id
  end.

(** [if (callbackAction) runCallback(item)] *)
Definition ifCallback (callbackAction : option (gmap string value))
    (item : entity) : task → task :=
  match callbackAction with
  | Some cb => runCallback cb item
  | None => id
  end.

Local Open Scope task_scope.

(** The closures of [ensureLoaded] over its arguments; [dependents] and
    [fullDependents] have got their default by then. *)
Definition missingDependents (args : Args) (itemToCheck : option entity)
    : list string :=
  getMissingDependents itemToCheck
    (Some (default [] (dependents args)))
    (Some (default [] (fullDependents args)))
    (full (options (loadAction args))).

Definition dependentUris (args : Args) (itemToCheck : option entity)
    : list value :=
  getDependentUris itemToCheck
    (Some (default [] (dependents args)))
    (Some (default [] (fullDependents args))).

(** The callback of [Promise.all]: one restoration of what was found. *)
Definition onDependentItems (dependentItems : list (option entity))
    : task :=
  Dispatch (restoreItemsFromColdStore (compact dependentItems)) ;;
  Return.

(** The callback of [localForage.getItem(uri)].  Its guard
    [!restoredItem || missingDependents(restoredItem).length > 0] is the
    [None] case and the test of the [Some] case. *)
Definition onRestoredItem (args : Args) (restoredItem : option entity)
    : task :=
  let uri := uri (loadAction args) in
  let callbackAction := callbackAction (options (loadAction args)) in
  match restoredItem with
  | Some restored =>
      if (0 <? length (missingDependents args restoredItem))%nat then
        Dispatch (setLoading uri true) ;;
        Fetch ;;
        Return
      else
        Info ("Restoring " +:+ dquote +:+ uri +:+ dquote
              +:+ " from database") [] ;;
        Dispatch (restoreItemsFromColdStore [restored]) ;;
        ifCallback callbackAction restored ;;
        (* We already have the dependents of our restored item, so
           restore them. *)
        let uris := dependentUris args restoredItem in
        if (0 <? length uris)%nat then
          Info ("Restoring " +:+ pretty (length uris)
                +:+ " dependents from database") [] ;;
          AllGetItemThen uris onDependentItems ;;
          Return
        else Return
  | None =>
      Dispatch (setLoading uri true) ;;
      Fetch ;;
      Return
  end.

Definition ensureLoaded (args : Args) : task :=
  let containerName := default "items" (containerName args) in
  let type := type args in
  let uri := uri (loadAction args) in
  let forceRefetch := forceRefetch (options (loadAction args)) in
  let callbackAction := callbackAction (options (loadAction args)) in
  GetState (λ state,
    let item := indexItem state containerName uri in
    (* Forced refetch bypasses everything *)
    if forceRefetch then
      Info ("Force-refetching " +:+ dquote +:+ uri +:+ dquote) [] ;;
      Dispatch (setLoading uri true) ;;
      Fetch ;;
      Return
    else
      (* What about in the coldstore? *)
      let coldStore :=
        GetItemThen (VStr uri) (onRestoredItem args) ;;
        Return in
      (* Item already in our index? *)
      match item with
      | Some indexed =>
          if (length (missingDependents args item) =? 0)%nat then
            Dispatch (stopLoading uri) ;;
            Info (dquote +:+ uri +:+ dquote +:+ " already in index") [] ;;
            let uris := dependentUris args item in
            when (negb (length uris =? 0)%nat) (λ k,
              Info ("Loading " +:+ pretty (length uris) +:+ " dependents")
                   [VObj {["uris" := VArr uris]}] ;;
              Dispatch (loadItems type uris) ;;
              k) ;;
            ifCallback callbackAction indexed ;;
            Return
          else coldStore
      | None => coldStore
      end).

End EnsureLoaded.

Arguments missingDependents : simpl never.
Arguments dependentUris : simpl never.

(** ** The event loop *)

(** What is outside [ensureLoaded]: [store.dispatch] with the reducers and
    middleware behind it, the [fetch] delegate, and the cold store, which
    this module only reads and which answers [None] for a key it does not
    hold. *)
Record world : Type := {
  reducer : State → action → State;
  fetch : State → State;
  getItem : value → option entity;
}.

(** One turn: the events of [p] up to its return, the callbacks it
    registered with the answer each of them will get, and the store's state
    afterwards. *)
Fixpoint turn (w : world) (p : task) (st : State)
    : list event * list task * State :=
  match p with
  | Return => ([], [], st)
  | GetState k =>
      let '(evs, cbs, st') := turn w (k st) st in
      (EvGetState :: evs, cbs, st')
  | Dispatch a k =>
      let '(evs, cbs, st') := turn w k (reducer w st a) in
      (EvDispatch a :: evs, cbs, st')
  | Fetch k =>
      let '(evs, cbs, st') := turn w k (fetch w st) in
      (EvFetch :: evs, cbs, st')
  | Info m x k =>
      let '(evs, cbs, st') := turn w k st in
      (EvInfo m x :: evs, cbs, st')
  | GetItemThen key cb k =>
      let '(evs, cbs, st') := turn w k st in
      (EvGetItem key :: evs, cb (getItem w key) :: cbs, st')
  | AllGetItemThen keys cb k =>
      let '(evs, cbs, st') := turn w k st in
      ((EvGetItem <$> keys) ++ evs, cb (getItem w <$> keys) :: cbs, st')
  end.

(** The loop takes the pending callbacks first come, first served; each
    runs to its end as one turn.  [None]: the fuel ran out. *)
Fixpoint eventLoop (fuel : nat) (w : world) (queue : list task) (st : State)
    : option (list (list event) * State) :=
  match queue with
  | [] => Some ([], st)
  | p :: queue' =>
      match fuel with
      | O => None
      | S fuel' =>
          let '(evs, cbs, st') := turn w p st in
          '(turns, st'') ← eventLoop fuel' w (queue' ++ cbs) st';
          Some (evs :: turns, st'')
      end
  end.

(** A call of [p] on an idle loop, run until nothing is pending. *)
Definition run (fuel : nat) (w : world) (p : task) (st : State)
    : option (list (list event)) :=
  fst <$> eventLoop fuel w [p] st.

(** ** Observations on a run *)

Definition dispatched (evs : list event) : list action :=
  omap (λ e, match e with EvDispatch a => Some a | _ => None end) evs.

Definition coldReads (evs : list event) : list value :=
  omap (λ e, match e with EvGetItem key => Some key | _ => None end) evs.

Definition isFetch (e : event) : bool :=
  match e with EvFetch => true | _ => false end.

Definition fetches (evs : list event) : nat :=
  length (List.filter isFetch evs).

Definition isGetState (e : event) : bool :=
  match e with EvGetState => true | _ => false end.

Definition indexReads (evs : list event) : nat :=
  length (List.filter isGetState evs).

(** ** The specification's reading *)

(** "Whose value on the item is undefined or null": the item has the
    property with one of these two values, or it does not have it and
    [Object.prototype] has nothing of that name either. *)
Definition missingOn (E : entity) (name : string) : Prop :=
  match E !! name with
  | Some v => v = VUndefined ∨ v = VNull
  | None => name ∉ objectPrototypeNames
  end.

#[global] Instance missingOn_dec E name : Decision (missingOn E name).
Proof.
  unfold missingOn. destruct (E !! name) as [v|]; [|apply _].
  destruct v; first [ by left; auto | right; intros [?|?]; done ].
Defined.

(** The reference definition of the missing dependents over [D], [F] and
    [full]. *)
Definition missingDependentsSpec
    (E : option entity) (D F : list string) (full : bool) : list string :=
  match E with
  | None => D ++ F
  | Some E => filter (missingOn E) (if full then D ++ F else D)
  end.

(** [pat] occurs in [s]. *)
Fixpoint contains (pat s : string) : bool :=
  String.prefix pat s ||
  match s with
  | EmptyString => false
  | String _ s' => contains pat s'
  end.

(** The reference definition of the dependent URIs: the arrays found at
    the names that contain [_uri], one after another. *)
Definition dependentUrisSpec
    (E : option entity) (D F : list string) : list value :=
  match E with
  | None => []
  | Some E =>
      name ← D ++ F;
      if contains "_uri" name
      then match E !! name with
           | Some (VArr elems) => elems
           | _ => []
           end
      else []
  end.

(** The requested URI and container of a call. *)
Definition uriOf (args : Args) : string := uri (loadAction args).

Definition containerOf (args : Args) : string :=
  default "items" (containerName args).

(** The entity, when it is there and complete for the call. *)
Definition completeItem {engine : Engine} (args : Args)
    (found : option entity) : option entity :=
  match found with
  | Some item =>
      if decide (missingDependents args found = []) then Some item else None
  | None => None
  end.

(** Is the action one of the two loading signals? *)
Definition isLoadingSignal (a : action) : bool :=
  match a with
  | setLoading _ _ | stopLoading _ => true
  | _ => false
  end.

Definition isRestore (a : action) : bool :=
  match a with
  | restoreItemsFromColdStore _ => true
  | _ => false
  end.

(** Every [fetch()] of the turn comes right after the dispatch of
    [setLoading(uri, true)]. *)
Definition fetchGuarded (uri : string) (evs : list event) : Prop :=
  ∀ pre post, evs = pre ++ EvFetch :: post →
    ∃ pre', pre = pre' ++ [EvDispatch (setLoading uri true)].

(** The store's state when the turn of [p] is over. *)
Definition stateAfter (w : world) (p : task) (st : State) : State :=
  (turn w p st).2.

Section CallbackSpec.

Variable formatContext : entity → value.

(** The request of the callback step has every property of
    [callbackAction] as it is there, [uris] and [from] from the entity
    where [callbackAction] has none of that name, and nothing else. *)
Definition mergedRequest (callbackAction : gmap string value)
    (item : entity) (request : gmap string value) : Prop :=
  ∀ key : string,
    request !! key =
      match callbackAction !! key with
      | Some v => Some v
      | None =>
          if decide (key = "uris") then Some (VArr [get item "uri"])
          else if decide (key = "from") then Some (formatContext item)
          else None
      end.

(** [callbackAction.name], when it is a string. *)
Definition nameOf (callbackAction : gmap string value) : option string :=
  match callbackAction !! "name" with
  | Some (VStr name) => Some name
  | _ => None
  end.

(** What the callback step dispatches. *)
Definition callbackStep (callbackAction : option (gmap string value))
    (item : entity) : list action :=
  match callbackAction with
  | None => []
  | Some cb =>
      if decide (nameOf cb = Some "enqueue")
      then [enqueueURIs (callbackPayload formatContext cb item)]
      else if decide (nameOf cb = Some "play")
      then [playURIs (callbackPayload formatContext cb item)]
      else []
  end.

End CallbackSpec.

(** ** Sample data *)

Module SampleEngine.

(** An engine to run the samples with: a built-in has a [name] and a
    [length], and nothing is known of the other values. *)
Definition standard : Engine :=
  {| builtin := λ k, {["name" := VStr k; "length" := VNum 0]};
     properties := λ _, ∅ |}.

End SampleEngine.

Module Sample.

(** A context formatter to run the samples with. *)
Definition formatContext (item : entity) : value :=
  VObj {["uri" := get item "uri"; "name" := get item "name"]}.

Definition foo : entity :=
  {["uri" := VStr "x"; "name" := VStr "Foo";
    "artist_uri" := VArr [VStr "a"; VStr "b"]]}.

Definition artistA : entity := {["uri" := VStr "a"; "name" := VStr "A"]}.

(** An entity that has its dependent, with no URI in it. *)
Definition bar : entity :=
  {["uri" := VStr "x"; "name" := VStr "Bar"; "artist_uri" := VArr []]}.

Definition emptyIndex : State := {| core := Some ∅ |}.

Definition indexWithFoo : State :=
  {| core := Some {["items" := {["x" := foo]}]} |}.

Definition coldEmpty (key : value) : option entity := None.

(** A cold store that holds [foo] and only the first of its artists. *)
Definition coldFoo (key : value) : option entity :=
  match key with
  | VStr s =>
      if String.eqb s "x" then Some foo
      else if String.eqb s "a" then Some artistA
      else None
  | _ => None
  end.

Definition coldBar (key : value) : option entity :=
  match key with
  | VStr s => if String.eqb s "x" then Some bar else None
  | _ => None
  end.

(** A store whose reducers leave the index as it is. *)
Definition idle (cold : value → option entity) : world :=
  {| reducer := λ st _, st; fetch := λ st, st; getItem := cold |}.

Definition request (force : bool) (cb : option (gmap string value))
    : Args :=
  {| containerName := None;
     loadAction :=
       {| uri := "x";
          options :=
            {| forceRefetch := force; full := false;
               callbackAction := cb |} |};
     dependents := Some ["artist_uri"];
     fullDependents := None;
     type := "artists" |}.

Definition play : gmap string value := {["name" := VStr "play"]}.

(** A callback action that brings its own [uris]. *)
Definition enqueueOwnUris : gmap string value :=
  {["name" := VStr "enqueue"; "uris" := VArr [VStr "z"]]}.

End Sample.

(** ** More observations on a run *)

Definition isStopLoading (a : action) : bool :=
  match a with
  | stopLoading _ => true
  | _ => false
  end.

(** The three ways a call can end: served by the index, handed to the
    fetch delegate, restored from the cold store. *)
Definition servedByIndex (evs : list event) : bool :=
  existsb isStopLoading (dispatched evs).

Definition handedToFetch (evs : list event) : bool :=
  existsb isFetch evs.

Definition restoredFromColdStore (evs : list event) : bool :=
  existsb isRestore (dispatched evs).

(** ** The four shapes of a run *)

Section Shapes.

Context {engine : Engine}.
Variable formatContext : entity → value.

Definition forcedTurn (args : Args) : list event :=
  [EvGetState;
   EvInfo ("Force-refetching " +:+ dquote +:+ uriOf args +:+ dquote) [];
   EvDispatch (setLoading (uriOf args) true);
   EvFetch].

Definition indexedTurn (args : Args) (item : entity) : list event :=
  EvGetState
  :: EvDispatch (stopLoading (uriOf args))
  :: EvInfo (dquote +:+ uriOf args +:+ dquote +:+ " already in index") []
  :: (let uris := dependentUris args (Some item) in
      if decide (uris = []) then []
      else [EvInfo ("Loading " +:+ pretty (length uris) +:+ " dependents")
              [VObj {["uris" := VArr uris]}];
            EvDispatch (loadItems (type args) uris)])
  ++ (EvDispatch
        <$> callbackStep formatContext
              (callbackAction (options (loadAction args))) item).

Definition fetchTurns (args : Args) : list (list event) :=
  [[EvGetState; EvGetItem (VStr (uriOf args))];
   [EvDispatch (setLoading (uriOf args) true); EvFetch]].

Definition restoredTurns (w : world) (args : Args) (restored : entity)
    : list (list event) :=
  let uris := dependentUris args (Some restored) in
  [[EvGetState; EvGetItem (VStr (uriOf args))];
   EvInfo ("Restoring " +:+ dquote +:+ uriOf args +:+ dquote
           +:+ " from database") []
   :: EvDispatch (restoreItemsFromColdStore [restored])
   :: (EvDispatch
         <$> callbackStep formatContext
               (callbackAction (options (loadAction args))) restored)
   ++ (if decide (uris = []) then []
       else EvInfo ("Restoring " +:+ pretty (length uris)
                    +:+ " dependents from database") []
            :: (EvGetItem <$> uris))]
  ++ (if decide (uris = []) then []
      else [[EvDispatch
               (restoreItemsFromColdStore (compact (getItem w <$> uris)))]]).

(** The run of a call is of one of the four shapes. *)
Inductive runShape (w : world) (args : Args) (st : State)
    : list (list event) → Prop :=
| ShapeForced :
    forceRefetch (options (loadAction args)) = true →
    runShape w args st [forcedTurn args]
| ShapeIndexed (item : entity) :
    forceRefetch (options (loadAction args)) = false →
    completeItem args (indexItem st (containerOf args) (uriOf args))
    = Some item →
    runShape w args st [indexedTurn args item]
| ShapeFetch :
    forceRefetch (options (loadAction args)) = false →
    completeItem args (indexItem st (containerOf args) (uriOf args)) = None →
    completeItem args (getItem w (VStr (uriOf args))) = None →
    runShape w args st (fetchTurns args)
| ShapeRestored (restored : entity) :
    forceRefetch (options (loadAction args)) = false →
    completeItem args (indexItem st (containerOf args) (uriOf args)) = None →
    completeItem args (getItem w (VStr (uriOf args))) = Some restored →
    runShape w args st (restoredTurns w args restored).

End Shapes.

(** ** The import of a shared configuration *)

(** [v.authorization] and [v.me] on a truthy [v]: a property of an object,
    [undefined] on anything else. *)
Definition member (v : value) (k : string) : value :=
  match v with
  | VObj o => get o k
  | _ => VUndefined
  end.

(** [prev.indexOf(name)] *)
Fixpoint indexOf (name : string) (prev : list string) : Z :=
  match prev with
  | [] => -1
  | prevName :: rest =>
      if String.eqb prevName name then 0
      else let i := indexOf name rest in
           if (i <? 0)%Z then -1 else (i + 1)%Z
  end.

(** The state update of [onSelectedChanged(name)]. *)
Definition onSelectedChanged (name : string) (prev : list string)
    : list string :=
  if (-1 <? indexOf name prev)%Z
  then List.filter (λ prevName, negb (String.eqb prevName name)) prev
  else prev ++ [name].

(** lodash's [pick(object, paths)] for paths that are own keys of
    [object], as the names of the checkboxes are. *)
Definition pick (object : gmap string value) (paths : list string)
    : gmap string value :=
  filter (λ kv, kv.1 ∈ paths) object.

(** The actions [onSubmit] dispatches, by their creators in the services
    [ui], [spotify], [snapcast], [lastfm] and [genius]. *)
Inductive importAction : Type :=
| setUi (ui : value)
| spotifyImportAuthorization (authorization me : value)
| snapcastSet (snapcast : value)
| snapcastConnect
| lastfmImportAuthorization (authorization me : value)
| geniusImportAuthorization (authorization me : value)
| createNotification (content : string)
| closeModal.

(** What [onSubmit] does, in program order.  [SubmitSetTimeout a ms] is
    [setTimeout(() => dispatch(a), ms)]. *)
Inductive submitEvent : Type :=
| SubmitPreventDefault
| SubmitDispatch (a : importAction)
| SubmitSetTimeout (a : importAction) (ms : nat).

Section ImportConfig.

(** [i18n] of the locale module. *)
Variable i18n : string → string.

Definition onSubmit (config : gmap string value) (selected : list string)
    : list submitEvent :=
  let toImport := pick config selected in
  [SubmitPreventDefault]
  ++ (if truthy (get toImport "ui")
      then [SubmitDispatch (setUi (get toImport "ui"))]
      else [])
  ++ (if truthy (get toImport "spotify")
      then [SubmitDispatch
              (spotifyImportAuthorization
                 (member (get toImport "spotify") "authorization")
                 (member (get toImport "spotify") "me"))]
      else [])
  ++ (if truthy (get toImport "snapcast")
      then [SubmitDispatch (snapcastSet (get toImport "snapcast"));
            SubmitSetTimeout snapcastConnect 100]
      else [])
  ++ (if truthy (get toImport "lastfm")
      then [SubmitDispatch
              (lastfmImportAuthorization
                 (member (get toImport "lastfm") "authorization")
                 (member (get toImport "lastfm") "me"))]
      else [])
  ++ (if truthy (get toImport "genius")
      then [SubmitDispatch
              (geniusImportAuthorization
                 (member (get toImport "genius") "authorization")
                 (member (get toImport "genius") "me"))]
      else [])
  ++ [SubmitDispatch
        (createNotification (i18n "modal.shared_config.imported"));
      SubmitDispatch closeModal].

End ImportConfig.

(** The place of a step in [onSubmit]. *)
Definition stepRank (e : submitEvent) : nat :=
  match e with
  | SubmitPreventDefault => 0
  | SubmitDispatch (setUi _) => 1
  | SubmitDispatch (spotifyImportAuthorization _ _) => 2
  | SubmitDispatch (snapcastSet _) => 3
  | SubmitSetTimeout _ _ => 4
  | SubmitDispatch (lastfmImportAuthorization _ _) => 5
  | SubmitDispatch (geniusImportAuthorization _ _) => 6
  | SubmitDispatch (createNotification _) => 7
  | SubmitDispatch closeModal => 8
  | SubmitDispatch snapcastConnect => 9
  end.

(** ** The library views *)

(** The bound action creators the views call. *)
Inductive viewCall : Type :=
| setWindowTitle (title : string)
| hideContextMenu
| cancelProcess (keys : list string)
| loadLibrary (uri : value) (libraryType : string) (forceRefetch : bool)
| setSort (key : string) (field : option string) (reverse : bool).

(** The props the methods below read.  A sort field of [None] is [null]. *)
Record ViewProps : Type := {
  source : string;
  providers : list entity;
  sortField : option string;
  sortReverse : bool;
}.

Section LibraryView.

(** What tells [Playlists] from [LibraryAlbums] in these methods. *)
Variable i18n : string → string.
Variable libraryType : string.
Variable titlePath : string.
Variable SORT_KEY : string.
Variable processKeys : list string.

(** [getLibraries(forceRefetch = false)] *)
Definition getLibraries (props : ViewProps) (forceRefetch : option bool)
    : list viewCall :=
  let forceRefetch := default false forceRefetch in
  let uris :=
    if String.eqb (source props) "all"
    then (λ p, get p "uri") <$> providers props
    else [VStr (source props)] in
  (λ uri, loadLibrary uri libraryType forceRefetch) <$> uris.

Definition componentDidMount (props : ViewProps) : list viewCall :=
  setWindowTitle (i18n titlePath) :: getLibraries props None.

Definition componentDidUpdate (props prevProps : ViewProps)
    : list viewCall :=
  if negb (String.eqb (source props) (source prevProps))
  then getLibraries props None
  else [].

Definition refresh (props : ViewProps) : list viewCall :=
  hideContextMenu :: getLibraries props (Some true).

Definition cancelRefresh (props : ViewProps) : list viewCall :=
  [hideContextMenu; cancelProcess processKeys].

(** The [reverse] that [onSortChange(field)] computes. *)
Definition sortChangeReverse (props : ViewProps) (field : option string)
    : bool :=
  match field with
  | Some f =>
      if decide (sortField props = Some f) then negb (sortReverse props)
      else false
  | None => false
  end.

Definition onSortChange (props : ViewProps) (field : option string)
    : list viewCall :=
  [setSort SORT_KEY field (sortChangeReverse props field); hideContextMenu].

End LibraryView.

(** The props once the store has taken a [setSort]. *)
Definition withSort (props : ViewProps) (field : option string)
    (reverse : bool) : ViewProps :=
  {| source := source props; providers := providers props;
     sortField := field; sortReverse := reverse |}.

(** The URIs a list of calls loads. *)
Definition loadedUris (calls : list viewCall) : list value :=
  omap (λ c, match c with loadLibrary u _ _ => Some u | _ => None end) calls.

Module Playlists.

Definition SORT_KEY : string := "library_playlists".

Definition processKeys : list string :=
  ["MOPIDY_GET_LIBRARY_PLAYLISTS"; "SPOTIFY_GET_LIBRARY_PLAYLISTS"].

Definition libraryType : string := "playlists".

Definition titlePath : string := "library.playlists.title".

End Playlists.

Module LibraryAlbums.

Definition SORT_KEY : string := "library_albums".

Definition processKeys : list string :=
  ["MOPIDY_GET_LIBRARY_ALBUMS"; "SPOTIFY_GET_LIBRARY_ALBUMS"].

Definition libraryType : string := "albums".

Definition titlePath : string := "library.albums.title".

End LibraryAlbums.

(** ** More sample data *)

Module SampleViews.

Definition i18n (path : string) : string := path.

Definition spotifyProvider : entity :=
  {["uri" := VStr "spotify:library:playlists"; "title" := VStr "Spotify"]}.

Definition mopidyProvider : entity :=
  {["uri" := VStr "m3u:playlists"; "title" := VStr "Mopidy"]}.

Definition allSources : ViewProps :=
  {| source := "all"; providers := [mopidyProvider; spotifyProvider];
     sortField := Some "name"; sortReverse := false |}.

Definition oneSource : ViewProps :=
  {| source := "m3u:playlists"; providers := [mopidyProvider; spotifyProvider];
     sortField := None; sortReverse := false |}.

(** A shared configuration with two sections. *)
Definition sharedConfig : gmap string value :=
  {["ui" := VObj {["theme" := VStr "dark"]};
    "snapcast" := VObj {["host" := VStr "localhost"]}]}.

(** [foo] with an album list among its full dependents. *)
Definition requestWithFull : Args :=
  {| containerName := None;
     loadAction :=
       {| uri := "x";
          options :=
            {| forceRefetch := false; full := false;
               callbackAction := None |} |};
     dependents := Some ["name"];
     fullDependents := Some ["artist_uri"];
     type := "artists" |}.

(** A cold store that holds [foo] and none of its artists. *)
Definition coldFooAlone (key : value) : option entity :=
  match key with
  | VStr s => if String.eqb s "x" then Some Sample.foo else None
  | _ => None
  end.

(** A request for the URI [constructor], with a dependent that every
    object inherits. *)
Definition requestConstructor : Args :=
  {| containerName := None;
     loadAction :=
       {| uri := "constructor";
          options :=
            {| forceRefetch := false; full := false;
               callbackAction := None |} |};
     dependents := Some ["toString"];
     fullDependents := None;
     type := "artists" |}.

(** An index whose [foo] lacks its artists. *)
Definition indexWithBareFoo : State :=
  {| core := Some {["items" := {["x" := {["uri" := VStr "x"]}]}]} |}.

End SampleViews.

(** * Properties *)

(** ** Strings and the pattern *)

Lemma append_cons (c : ascii) (s t : string) :
  String c s +:+ t = String c (s +:+ t).
Proof. reflexivity. Qed.

Lemma append_empty (t : string) : EmptyString +:+ t = t.
Proof. reflexivity. Qed.

Lemma prefix_app (pat s : string) :
  String.prefix pat s = true ↔ ∃ post, s = pat +:+ post.
Proof.
  revert s. induction pat as [|c pat IH]; intros [|d s]; simpl.
  - split; [intros _; by exists EmptyString | done].
  - split; [intros _; by exists (String d s) | done].
  - split; [done | intros [post Hpost]; discriminate].
  - setoid_rewrite append_cons.
    destruct (Ascii.ascii_dec c d) as [->|Hcd].
    + rewrite IH. split; intros [post Hpost]; exists post; congruence.
    + split; [done | intros [post Hpost]; congruence].
Qed.

(** [contains] is the substring relation. *)
Lemma contains_spec (pat s : string) :
  contains pat s = true ↔ ∃ pre post, s = pre +:+ pat +:+ post.
Proof.
  induction s as [|c s IH]; cbn [contains].
  - rewrite orb_false_r, prefix_app. split.
    + intros [post Hpost]. by exists EmptyString, post.
    + intros [[|d pre] [post Hpost]]; [by exists post | discriminate].
  - rewrite orb_true_iff, prefix_app, IH. split.
    + intros [[post Hpost] | (pre & post & Hs)].
      * by exists EmptyString, post.
      * exists (String c pre), post. by rewrite append_cons, Hs.
    + intros [[|d pre] [post Hpost]].
      * left. by exists post.
      * right. exists pre, post. rewrite append_cons in Hpost. congruence.
Qed.

Lemma matchHere_contains (s : string) :
  matchHere s = true → contains "_uri" s = true.
Proof.
  induction s as [|c s IH]; cbn [matchHere contains].
  - by rewrite !orb_false_r.
  - intros [Hp | [_ Hm]%andb_true_iff]%orb_true_iff.
    + by rewrite Hp.
    + rewrite (IH Hm). apply orb_true_r.
Qed.

(** The groups around [_uri] and the line terminators they stop at make no
    difference: a name matches exactly when it contains [_uri]. *)
Lemma matchUriPattern_contains (s : string) :
  matchUriPattern s = contains "_uri" s.
Proof.
  induction s as [|c s IH]; cbn [matchUriPattern matchHere contains].
  - by rewrite !orb_false_r.
  - rewrite IH. destruct (String.prefix "_uri" (String c s)) eqn:Hp; [done|].
    cbn [orb].
    destruct (negb (isLineTerminator c) && matchHere s) eqn:Hm; [|done].
    apply andb_true_iff in Hm as [_ Hm].
    by rewrite (matchHere_contains _ Hm).
Qed.

(** ** The dependent inspection against its reference *)

Lemma not_inherited_uri (name : string) :
  contains "_uri" name = true → name ∉ objectPrototypeNames.
Proof.
  intros Hpat Hin. unfold objectPrototypeNames in Hin.
  repeat (apply elem_of_cons in Hin as [->|Hin]; [by vm_compute in Hpat|]).
  by apply elem_of_nil in Hin.
Qed.

Section InspectionFacts.

Context {engine : Engine}.

Lemma read_own (E : entity) (name : string) (v : value) :
  E !! name = Some v → read E name = v.
Proof. unfold read. by intros ->. Qed.

Lemma read_inherited (E : entity) (name : string) :
  E !! name = None → name ∈ objectPrototypeNames →
  read E name = VObj (builtin name).
Proof. unfold read, inherited. intros -> Hin. by rewrite decide_True. Qed.

Lemma read_nothing (E : entity) (name : string) :
  E !! name = None → name ∉ objectPrototypeNames →
  read E name = VUndefined.
Proof. unfold read, inherited. intros -> Hout. by rewrite decide_False. Qed.

Lemma isUndefinedOrNull_missingOn (E : entity) (name : string) :
  isUndefinedOrNull (read E name) = true ↔ missingOn E name.
Proof.
  unfold missingOn. destruct (E !! name) as [v|] eqn:Hown.
  - rewrite (read_own _ _ _ Hown).
    destruct v; simpl; split;
      first [ done | by intros [?|?] | by left | by right ].
  - destruct (decide (name ∈ objectPrototypeNames)) as [Hin|Hout].
    + by rewrite read_inherited.
    + by rewrite read_nothing.
Qed.

Lemma filter_missingOn (E : entity) (names : list string) :
  List.filter (λ dep, isUndefinedOrNull (read E dep)) names
  = filter (missingOn E) names.
Proof.
  induction names as [|name names IH]; [done|].
  cbn [List.filter]. rewrite filter_cons, IH.
  destruct (isUndefinedOrNull (read E name)) eqn:Hb.
  - apply isUndefinedOrNull_missingOn in Hb. by rewrite decide_True.
  - rewrite decide_False; [done|].
    intros Hm%isUndefinedOrNull_missingOn. congruence.
Qed.

(** C5: [getMissingDependents] is its reference definition: everything
    when the item is absent, else the names of [D ++ F] (when [full]) or of
    [D] alone (otherwise) whose value on the item is undefined or null, in
    the order of the input and with its duplicates. *)
Theorem getMissingDependents_spec
    (item : option entity) (dependents fullDependents : option (list string))
    (full : bool) :
  getMissingDependents item dependents fullDependents full
  = missingDependentsSpec item (default [] dependents)
      (default [] fullDependents) full.
Proof.
  unfold getMissingDependents, missingDependentsSpec.
  destruct item as [E|]; [|done].
  destruct full; apply filter_missingOn.
Qed.

Lemma fold_left_app_bind {A B} (f : A → list B) (l : list A) (acc : list B) :
  fold_left (λ acc x, acc ++ f x) l acc = acc ++ (l ≫= f).
Proof.
  revert acc. induction l as [|x l IH]; intros acc; simpl.
  - by rewrite app_nil_r.
  - by rewrite IH, app_assoc.
Qed.

Lemma getUrisOfDependent_spec (E : entity) (name : string) :
  getUrisOfDependent E name
  = if contains "_uri" name
    then match E !! name with
         | Some (VArr elems) => elems
         | _ => []
         end
    else [].
Proof.
  unfold getUrisOfDependent. rewrite matchUriPattern_contains.
  destruct (contains "_uri" name) eqn:Hpat; [|done]. cbn [negb].
  destruct (E !! name) as [v|] eqn:Hown.
  - rewrite (read_own _ _ _ Hown). by destruct v.
  - by rewrite read_nothing by (done || by apply not_inherited_uri).
Qed.

(** C6: [getDependentUris] is empty for an absent item; otherwise it is
    the concatenation, over [dependents ++ fullDependents] in order, of the
    item's arrays at the names that contain [_uri]; other names, and such
    names with a value that is not an array, add nothing. *)
Theorem getDependentUris_spec
    (item : option entity) (dependents fullDependents : option (list string)) :
  getDependentUris item dependents fullDependents
  = dependentUrisSpec item (default [] dependents)
      (default [] fullDependents).
Proof.
  unfold getDependentUris, dependentUrisSpec.
  destruct item as [E|]; [|done].
  rewrite fold_left_app_bind. simpl.
  induction (default [] dependents ++ default [] fullDependents)
    as [|name names IH]; [done|].
  cbn [mbind list_bind]. by rewrite IH, getUrisOfDependent_spec.
Qed.

End InspectionFacts.

(** ** The event loop *)

Lemma eventLoop_nil (fuel : nat) (w : world) (st : State) :
  eventLoop fuel w [] st = Some ([], st).
Proof. by destruct fuel. Qed.

(** More fuel does not change a result. *)
Lemma eventLoop_fuel (f f' : nat) (w : world) (queue : list task)
    (st : State) (r : list (list event) * State) :
  eventLoop f w queue st = Some r → f ≤ f' → eventLoop f' w queue st = Some r.
Proof.
  revert f' queue st r.
  induction f as [|f IH]; intros f' [|p queue] st r Hrun Hle.
  - by rewrite eventLoop_nil in *.
  - done.
  - by rewrite eventLoop_nil in *.
  - destruct f' as [|f']; [lia|]. cbn [eventLoop] in *.
    destruct (turn w p st) as [[evs cbs] st'].
    destruct (eventLoop f w (queue ++ cbs) st') as [[turns st'']|] eqn:Hrest;
      [|done].
    by rewrite (IH f' _ _ _ Hrest) by lia.
Qed.

Lemma run_fuel (f f' : nat) (w : world) (p : task) (st : State)
    (turns : list (list event)) :
  run f w p st = Some turns → f ≤ f' → run f' w p st = Some turns.
Proof.
  unfold run. intros Hrun Hle.
  destruct (eventLoop f w [p] st) as [r|] eqn:Hloop; [|done].
  by rewrite (eventLoop_fuel _ _ _ _ _ _ Hloop Hle).
Qed.

(** A call that registers no callback is over after its turn. *)
Lemma run_one_turn (fuel : nat) (w : world) (p : task) (st : State) :
  (turn w p st).1.2 = [] → 1 ≤ fuel →
  run fuel w p st = Some [(turn w p st).1.1].
Proof.
  intros Hcbs Hfuel. apply (run_fuel 1); [|done].
  unfold run. cbn [eventLoop].
  destruct (turn w p st) as [[evs cbs] st']. simpl in *. by subst.
Qed.

(** ** Observations *)

Lemma dispatched_app (evs evs' : list event) :
  dispatched (evs ++ evs') = dispatched evs ++ dispatched evs'.
Proof. apply omap_app. Qed.

Lemma dispatched_dispatch (actions : list action) :
  dispatched (EvDispatch <$> actions) = actions.
Proof. induction actions as [|a l IH]; [done|]. simpl. by f_equal. Qed.

Lemma dispatched_getItem (keys : list value) :
  dispatched (EvGetItem <$> keys) = [].
Proof. by induction keys. Qed.

Lemma coldReads_app (evs evs' : list event) :
  coldReads (evs ++ evs') = coldReads evs ++ coldReads evs'.
Proof. apply omap_app. Qed.

Lemma coldReads_dispatch (actions : list action) :
  coldReads (EvDispatch <$> actions) = [].
Proof. by induction actions. Qed.

Lemma fetches_app (evs evs' : list event) :
  fetches (evs ++ evs') = fetches evs + fetches evs'.
Proof. unfold fetches. by rewrite List.filter_app, length_app. Qed.

Lemma fetches_dispatch (actions : list action) :
  fetches (EvDispatch <$> actions) = 0.
Proof. by induction actions. Qed.

Lemma fetches_getItem (keys : list value) :
  fetches (EvGetItem <$> keys) = 0.
Proof. by induction keys. Qed.

Lemma indexReads_dispatch (actions : list action) :
  indexReads (EvDispatch <$> actions) = 0.
Proof. by induction actions. Qed.

Lemma dispatched_cons (e : event) (evs : list event) :
  dispatched (e :: evs)
  = match e with
    | EvDispatch a => a :: dispatched evs
    | _ => dispatched evs
    end.
Proof. by destruct e. Qed.

Lemma coldReads_cons (e : event) (evs : list event) :
  coldReads (e :: evs)
  = match e with
    | EvGetItem key => key :: coldReads evs
    | _ => coldReads evs
    end.
Proof. by destruct e. Qed.

Lemma coldReads_getItem (keys : list value) :
  coldReads (EvGetItem <$> keys) = keys.
Proof. induction keys as [|key keys IH]; [done|]. simpl. by f_equal. Qed.

Lemma fetches_cons (e : event) (evs : list event) :
  fetches (e :: evs) = (if isFetch e then 1 else 0) + fetches evs.
Proof. unfold fetches. cbn [List.filter]. by destruct (isFetch e). Qed.

Lemma indexReads_cons (e : event) (evs : list event) :
  indexReads (e :: evs) = (if isGetState e then 1 else 0) + indexReads evs.
Proof. unfold indexReads. cbn [List.filter]. by destruct (isGetState e). Qed.

Lemma indexReads_app (evs evs' : list event) :
  indexReads (evs ++ evs') = indexReads evs + indexReads evs'.
Proof. unfold indexReads. by rewrite List.filter_app, length_app. Qed.

(** ** The callback step *)

Section Callback.

Variable formatContext : entity → value.

Lemma nameOf_get (cb : gmap string value) (name : string) :
  nameOf cb = Some name ↔ get cb "name" = VStr name.
Proof.
  unfold nameOf, get.
  destruct (cb !! "name") as [[]|]; simpl; split; congruence.
Qed.

Lemma callbackPayload_merged (cb : gmap string value) (item : entity) :
  mergedRequest formatContext cb item (callbackPayload formatContext cb item).
Proof.
  intros key. unfold callbackPayload.
  destruct (cb !! key) as [v|] eqn:Hcb.
  - by apply lookup_union_Some_l.
  - rewrite lookup_union_r by done.
    destruct (decide (key = "uris")) as [->|Huris].
    + by rewrite lookup_insert_eq.
    + rewrite lookup_insert_ne by done.
      destruct (decide (key = "from")) as [->|Hfrom].
      * by rewrite lookup_insert_eq.
      * by rewrite lookup_insert_ne, lookup_empty.
Qed.

Lemma runCallback_enqueue (cb : gmap string value) (item : entity)
    (k : task) :
  nameOf cb = Some "enqueue" →
  runCallback formatContext cb item k
  = Dispatch (enqueueURIs (callbackPayload formatContext cb item)) k.
Proof.
  intros Hname%nameOf_get. unfold runCallback. by rewrite Hname.
Qed.

Lemma runCallback_play (cb : gmap string value) (item : entity)
    (k : task) :
  nameOf cb = Some "play" →
  runCallback formatContext cb item k
  = Dispatch (playURIs (callbackPayload formatContext cb item)) k.
Proof.
  intros Hname%nameOf_get. unfold runCallback. by rewrite Hname.
Qed.

Lemma runCallback_other (cb : gmap string value) (item : entity)
    (k : task) :
  nameOf cb ≠ Some "enqueue" → nameOf cb ≠ Some "play" →
  runCallback formatContext cb item k = k.
Proof.
  unfold runCallback, nameOf, get. intros Henq Hplay.
  destruct (cb !! "name") as [[| | | |name| |]|]; simpl; try done.
  destruct (String.eqb_spec name "enqueue") as [->|_]; [done|].
  by destruct (String.eqb_spec name "play") as [->|_].
Qed.

(** C7, amended: with the name [enqueue], the callback step dispatches
    one enqueue request that has all the properties of [callbackAction],
    and [uris] (the entity's URI alone) and [from] (the formatted entity)
    where [callbackAction] does not define them itself; with the name
    [play] it dispatches the same request as a play request; with any
    other name it dispatches nothing. *)
Theorem runCallback_spec (cb : gmap string value) (item : entity)
    (k : task) :
  ∃ request : gmap string value,
    mergedRequest formatContext cb item request ∧
    (nameOf cb = Some "enqueue" →
       runCallback formatContext cb item k
       = Dispatch (enqueueURIs request) k) ∧
    (nameOf cb = Some "play" →
       runCallback formatContext cb item k
       = Dispatch (playURIs request) k) ∧
    (nameOf cb ≠ Some "enqueue" → nameOf cb ≠ Some "play" →
       runCallback formatContext cb item k = k).
Proof.
  exists (callbackPayload formatContext cb item).
  split; [apply callbackPayload_merged|].
  split; [apply runCallback_enqueue|].
  split; [apply runCallback_play | apply runCallback_other].
Qed.

(** The step as the list of what it dispatches. *)
Lemma ifCallback_callbackStep (cbA : option (gmap string value))
    (item : entity) (k : task) :
  ifCallback formatContext cbA item k
  = foldr Dispatch k (callbackStep formatContext cbA item).
Proof.
  destruct cbA as [cb|]; [|done]. unfold callbackStep. cbn [ifCallback].
  destruct (decide (nameOf cb = Some "enqueue")) as [Henq|Henq].
  { by rewrite runCallback_enqueue. }
  destruct (decide (nameOf cb = Some "play")) as [Hplay|Hplay].
  { by rewrite runCallback_play. }
  by rewrite runCallback_other.
Qed.

Lemma turn_dispatches (w : world) (actions : list action) (k : task)
    (st : State) :
  turn w (foldr Dispatch k actions) st
  = let '(evs, cbs, st') := turn w k (foldl (reducer w) st actions) in
    ((EvDispatch <$> actions) ++ evs, cbs, st').
Proof.
  revert st. induction actions as [|a actions IH]; intros st.
  - simpl. by destruct (turn w k st) as [[??]?].
  - cbn [foldr turn foldl]. rewrite IH.
    by destruct (turn w k _) as [[??]?].
Qed.

Lemma callbackStep_no_signal (cbA : option (gmap string value))
    (item : entity) :
  Forall (λ a, isLoadingSignal a = false ∧ isRestore a = false)
    (callbackStep formatContext cbA item).
Proof.
  unfold callbackStep. destruct cbA as [cb|]; [|constructor].
  repeat case_decide; repeat constructor.
Qed.

End Callback.

(** C7 as written fails where [callbackAction] has [uris] of its own: the
    request carries those, not the entity's URI. *)
Lemma runCallback_own_uris :
  nameOf Sample.enqueueOwnUris = Some "enqueue" ∧
  ∃ request : gmap string value,
    runCallback Sample.formatContext Sample.enqueueOwnUris Sample.foo Return
    = Dispatch (enqueueURIs request) Return ∧
    get request "uris" = VArr [VStr "z"] ∧
    VArr [get Sample.foo "uri"] = VArr [VStr "x"].
Proof.
  split; [by vm_compute|].
  eexists. split; [by apply runCallback_enqueue; vm_compute|].
  split; by vm_compute.
Qed.

Lemma runCallback_spec_witness :
  ∃ request : gmap string value,
    request !! "uris" = Some (VArr [VStr "x"]) ∧
    request !! "name" = Some (VStr "play") ∧
    runCallback Sample.formatContext Sample.play Sample.foo Return
    = Dispatch (playURIs request) Return.
Proof.
  destruct (runCallback_spec Sample.formatContext Sample.play Sample.foo
              Return) as (request & Hmerged & _ & Hplay & _).
  exists request. split; [|split].
  - by rewrite (Hmerged "uris").
  - by rewrite (Hmerged "name").
  - apply Hplay. reflexivity.
Defined.

(** ** The branches of ensureLoaded *)

Lemma completeItem_Some {engine : Engine} (args : Args)
    (found : option entity) (item : entity) :
  completeItem args found = Some item →
  found = Some item ∧ missingDependents args (Some item) = [].
Proof.
  unfold completeItem. destruct found as [e|]; [|done].
  case_decide; [|done]. by intros [= ->].
Qed.

Lemma completeItem_None {engine : Engine} (args : Args)
    (found : option entity) :
  completeItem args found = None →
  found = None ∨ ∃ e, found = Some e ∧ missingDependents args (Some e) ≠ [].
Proof.
  unfold completeItem. destruct found as [e|]; [|by left].
  case_decide; [done|]. right. by exists e.
Qed.

(** Incompleteness said without the program's closure: some name the
    call has to look at is missing on the item. *)
Lemma completeItem_None_missing {engine : Engine} (args : Args)
    (found : option entity) :
  completeItem args found = None
  ↔ found = None
    ∨ ∃ (e : entity) (name : string),
        found = Some e ∧
        name ∈ (if full (options (loadAction args))
                then default [] (dependents args)
                     ++ default [] (fullDependents args)
                else default [] (dependents args)) ∧
        missingOn e name.
Proof.
  unfold completeItem. destruct found as [e|]; [|split; [by left|done]].
  set (names := if full (options (loadAction args)) then _ else _).
  assert (missingDependents args (Some e) = filter (missingOn e) names)
    as ->.
  { subst names. unfold missingDependents, getMissingDependents.
    destruct (full _); apply filter_missingOn. }
  case_decide as Hnil.
  - split; [done|]. intros [?|(e' & name & [= <-] & Hname & Hmissing)]; [done|].
    assert (name ∈ filter (missingOn e) names) as Hin
      by (by apply list_elem_of_filter).
    rewrite Hnil in Hin. by apply elem_of_nil in Hin.
  - split; [|done]. intros _. right.
    destruct (filter (missingOn e) names) as [|name rest] eqn:Hfilter;
      [done|].
    assert (name ∈ filter (missingOn e) names) as Hin
      by (rewrite Hfilter; apply list_elem_of_here).
    apply list_elem_of_filter in Hin as [Hmissing Hname].
    by exists e, name.
Qed.

Lemma length_eqb_0 {A} (l : list A) :
  (length l =? 0)%nat = bool_decide (l = []).
Proof. by destruct l. Qed.

Lemma length_ltb_0 {A} (l : list A) :
  (0 <? length l)%nat = negb (bool_decide (l = [])).
Proof. by destruct l. Qed.

Section Resolution.

Context {engine : Engine}.
Variable formatContext : entity → value.

Lemma turn_force (w : world) (args : Args) (st : State) :
  forceRefetch (options (loadAction args)) = true →
  turn w (ensureLoaded formatContext args) st
  = ([EvGetState;
      EvInfo ("Force-refetching " +:+ dquote +:+ uriOf args +:+ dquote) [];
      EvDispatch (setLoading (uriOf args) true);
      EvFetch],
     [],
     fetch w (reducer w st (setLoading (uriOf args) true))).
Proof.
  intros Hforce. unfold ensureLoaded. cbn [turn]. by rewrite Hforce.
Qed.

Lemma turn_indexed (w : world) (args : Args) (st : State) (item : entity) :
  forceRefetch (options (loadAction args)) = false →
  indexItem st (containerOf args) (uriOf args) = Some item →
  missingDependents args (Some item) = [] →
  (turn w (ensureLoaded formatContext args) st).1
  = (EvGetState
     :: EvDispatch (stopLoading (uriOf args))
     :: EvInfo (dquote +:+ uriOf args +:+ dquote +:+ " already in index") []
     :: (let uris := dependentUris args (Some item) in
         if decide (uris = []) then []
         else [EvInfo ("Loading " +:+ pretty (length uris) +:+ " dependents")
                 [VObj {["uris" := VArr uris]}];
               EvDispatch (loadItems (type args) uris)])
     ++ (EvDispatch
           <$> callbackStep formatContext
                 (callbackAction (options (loadAction args))) item),
     []).
Proof.
  intros Hforce Hfound Hmiss. unfold ensureLoaded. cbn [turn].
  rewrite Hforce.
  change (indexItem st _ _) with (indexItem st (containerOf args) (uriOf args)).
  rewrite Hfound.
  rewrite Hmiss.
  change (uri (loadAction args)) with (uriOf args).
  cbn [length Nat.eqb turn]. rewrite length_eqb_0.
  destruct (decide (dependentUris args (Some item) = [])) as [Huris|Huris].
  - rewrite bool_decide_true by done. cbn [negb when id].
    rewrite ifCallback_callbackStep, turn_dispatches. cbn [turn].
    by rewrite app_nil_r.
  - rewrite bool_decide_false by done. cbn [negb when turn].
    rewrite ifCallback_callbackStep, turn_dispatches. cbn [turn].
    by rewrite app_nil_r.
Qed.

Lemma turn_index_miss (w : world) (args : Args) (st : State) :
  forceRefetch (options (loadAction args)) = false →
  completeItem args (indexItem st (containerOf args) (uriOf args)) = None →
  turn w (ensureLoaded formatContext args) st
  = ([EvGetState; EvGetItem (VStr (uriOf args))],
     [onRestoredItem formatContext args (getItem w (VStr (uriOf args)))],
     st).
Proof.
  intros Hforce Hmiss. unfold ensureLoaded. cbn [turn]. rewrite Hforce.
  change (indexItem st _ _)
    with (indexItem st (containerOf args) (uriOf args)).
  apply completeItem_None in Hmiss as [->|(e & -> & Hmiss)]; [done|].
  rewrite length_eqb_0, bool_decide_false by done. done.
Qed.

Lemma turn_restored_miss (w : world) (args : Args) (st : State)
    (found : option entity) :
  completeItem args found = None →
  turn w (onRestoredItem formatContext args found) st
  = ([EvDispatch (setLoading (uriOf args) true); EvFetch],
     [],
     fetch w (reducer w st (setLoading (uriOf args) true))).
Proof.
  intros [->|(e & -> & Hmiss)]%completeItem_None; [done|].
  unfold onRestoredItem.
  by rewrite length_ltb_0, bool_decide_false by done.
Qed.

Lemma turn_restored_complete (w : world) (args : Args) (st : State)
    (found : option entity) (restored : entity) :
  completeItem args found = Some restored →
  (turn w (onRestoredItem formatContext args found) st).1
  = let uris := dependentUris args (Some restored) in
    (EvInfo ("Restoring " +:+ dquote +:+ uriOf args +:+ dquote
             +:+ " from database") []
     :: EvDispatch (restoreItemsFromColdStore [restored])
     :: (EvDispatch
           <$> callbackStep formatContext
                 (callbackAction (options (loadAction args))) restored)
     ++ (if decide (uris = []) then []
         else EvInfo ("Restoring " +:+ pretty (length uris)
                      +:+ " dependents from database") []
              :: (EvGetItem <$> uris)),
     if decide (uris = []) then []
     else [onDependentItems (getItem w <$> uris)]).
Proof.
  intros [-> Hmiss]%completeItem_Some. unfold onRestoredItem.
  rewrite !length_ltb_0.
  rewrite (bool_decide_true (missingDependents _ _ = [])) by done.
  cbn [negb turn]. rewrite ifCallback_callbackStep, turn_dispatches.
  change (uri (loadAction args)) with (uriOf args). cbn zeta.
  destruct (decide (dependentUris args (Some restored) = []))
    as [Huris|Huris].
  - by rewrite bool_decide_true by done.
  - rewrite bool_decide_false by done. cbn [negb turn fst].
    by rewrite app_nil_r.
Qed.

(** *** The four runs *)

Lemma run_force (fuel : nat) (w : world) (args : Args) (st : State) :
  forceRefetch (options (loadAction args)) = true →
  1 ≤ fuel →
  run fuel w (ensureLoaded formatContext args) st
  = Some [[EvGetState;
           EvInfo ("Force-refetching " +:+ dquote +:+ uriOf args
                   +:+ dquote) [];
           EvDispatch (setLoading (uriOf args) true);
           EvFetch]].
Proof.
  intros Hforce Hfuel. rewrite run_one_turn by (by rewrite ?turn_force).
  by rewrite turn_force.
Qed.

Lemma run_indexed (fuel : nat) (w : world) (args : Args) (st : State)
    (item : entity) :
  forceRefetch (options (loadAction args)) = false →
  completeItem args (indexItem st (containerOf args) (uriOf args))
  = Some item →
  1 ≤ fuel →
  run fuel w (ensureLoaded formatContext args) st
  = Some [EvGetState
          :: EvDispatch (stopLoading (uriOf args))
          :: EvInfo (dquote +:+ uriOf args +:+ dquote
                     +:+ " already in index") []
          :: (let uris := dependentUris args (Some item) in
              if decide (uris = []) then []
              else [EvInfo ("Loading " +:+ pretty (length uris)
                            +:+ " dependents")
                      [VObj {["uris" := VArr uris]}];
                    EvDispatch (loadItems (type args) uris)])
          ++ (EvDispatch
                <$> callbackStep formatContext
                      (callbackAction (options (loadAction args))) item)].
Proof.
  intros Hforce [Hfound Hmiss]%completeItem_Some Hfuel.
  pose proof (turn_indexed w args st item Hforce Hfound Hmiss) as Hturn.
  rewrite run_one_turn by (by rewrite ?Hturn). by rewrite Hturn.
Qed.

Lemma run_fetch_after_miss (fuel : nat) (w : world) (args : Args)
    (st : State) :
  forceRefetch (options (loadAction args)) = false →
  completeItem args (indexItem st (containerOf args) (uriOf args)) = None →
  completeItem args (getItem w (VStr (uriOf args))) = None →
  2 ≤ fuel →
  run fuel w (ensureLoaded formatContext args) st
  = Some [[EvGetState; EvGetItem (VStr (uriOf args))];
          [EvDispatch (setLoading (uriOf args) true); EvFetch]].
Proof.
  intros Hforce Hindex Hcold Hfuel. apply (run_fuel 2); [|done].
  unfold run. cbn [eventLoop].
  rewrite turn_index_miss by done. cbn [app].
  by rewrite turn_restored_miss.
Qed.

Lemma run_restored (fuel : nat) (w : world) (args : Args) (st : State)
    (restored : entity) :
  forceRefetch (options (loadAction args)) = false →
  completeItem args (indexItem st (containerOf args) (uriOf args)) = None →
  completeItem args (getItem w (VStr (uriOf args))) = Some restored →
  3 ≤ fuel →
  run fuel w (ensureLoaded formatContext args) st
  = let uris := dependentUris args (Some restored) in
    Some ([[EvGetState; EvGetItem (VStr (uriOf args))];
           EvInfo ("Restoring " +:+ dquote +:+ uriOf args +:+ dquote
                   +:+ " from database") []
           :: EvDispatch (restoreItemsFromColdStore [restored])
           :: (EvDispatch
                 <$> callbackStep formatContext
                       (callbackAction (options (loadAction args)))
                       restored)
           ++ (if decide (uris = []) then []
               else EvInfo ("Restoring " +:+ pretty (length uris)
                            +:+ " dependents from database") []
                    :: (EvGetItem <$> uris))]
          ++ (if decide (uris = []) then []
              else [[EvDispatch
                       (restoreItemsFromColdStore
                          (compact (getItem w <$> uris)))]])).
Proof.
  intros Hforce Hindex Hcold Hfuel. apply (run_fuel 3); [|done].
  unfold run. cbn [eventLoop].
  rewrite turn_index_miss by done. cbn [app].
  pose proof (turn_restored_complete w args st _ _ Hcold) as Hturn.
  destruct (turn w (onRestoredItem _ _ _) st) as [[evs cbs] st'].
  cbn [fst] in Hturn. lazy zeta in Hturn. injection Hturn as -> ->.
  lazy zeta.
  by destruct (decide (dependentUris args (Some restored) = [])).
Qed.

End Resolution.

(** ** Calls in succession *)

Lemma turn_andThen (w : world) (p q : task) (st : State) :
  turn w (andThen p q) st
  = let '(evs, cbs, st') := turn w p st in
    let '(evs', cbs', st'') := turn w q st' in
    (evs ++ evs', cbs ++ cbs', st'').
Proof.
  revert st.
  induction p as [|k IH|a k IH|k IH|m x k IH|key cb _ k IH|keys cb _ k IH];
    intros st; cbn [andThen turn].
  - by destruct (turn w q st) as [[??]?].
  - rewrite IH. destruct (turn w (k st) st) as [[??]?].
    by destruct (turn w q _) as [[??]?].
  - rewrite IH. destruct (turn w k _) as [[??]?].
    by destruct (turn w q _) as [[??]?].
  - rewrite IH. destruct (turn w k _) as [[??]?].
    by destruct (turn w q _) as [[??]?].
  - rewrite IH. destruct (turn w k _) as [[??]?].
    by destruct (turn w q _) as [[??]?].
  - rewrite IH. destruct (turn w k _) as [[??]?].
    by destruct (turn w q _) as [[??]?].
  - rewrite IH. destruct (turn w k _) as [[??]?].
    destruct (turn w q _) as [[??]?]. by rewrite <-app_assoc.
Qed.

(** ** Fetches and their loading signal *)

Lemma fetchGuarded_no_fetch (uri : string) (evs : list event) :
  fetches evs = 0 → fetchGuarded uri evs.
Proof.
  intros Hnone pre post ->.
  rewrite fetches_app, fetches_cons in Hnone. simpl in Hnone. lia.
Qed.

Lemma fetchGuarded_signal (uri : string) :
  fetchGuarded uri [EvDispatch (setLoading uri true); EvFetch].
Proof.
  intros [|e [|e' pre]] post Heq; simplify_eq/=.
  - by exists [].
  - by destruct pre.
Qed.

Lemma fetchGuarded_cons (uri : string) (e : event) (evs : list event) :
  isFetch e = false → fetchGuarded uri evs → fetchGuarded uri (e :: evs).
Proof.
  intros He Hevs [|e' pre] post Heq; simplify_eq/=.
  destruct (Hevs pre post eq_refl) as [pre' ->]. by exists (e' :: pre').
Qed.

(** ** ensureLoaded, branch by branch *)

Lemma completeItem_intro {engine : Engine} (args : Args)
    (found : option entity) (item : entity) :
  found = Some item → missingDependents args (Some item) = [] →
  completeItem args found = Some item.
Proof. intros -> Hmiss. unfold completeItem. by rewrite decide_True. Qed.

Section Claims.

Context {engine : Engine}.
Variable formatContext : entity → value.

(** C1: with [forceRefetch] false, an entity found in the index under
    the container and URI of the call and missing no dependent makes
    [ensureLoaded] dispatch [stopLoading(uri)], then [loadItems(type,
    uris)] when the entity has dependent URIs, then what the callback step
    dispatches when there is a [callbackAction]; the call is over within
    its turn, reads nothing from the cold store and does not fetch. *)
Theorem ensureLoaded_index_satisfied (fuel : nat) (w : world) (args : Args)
    (st : State) (item : entity) :
  forceRefetch (options (loadAction args)) = false →
  indexItem st (containerOf args) (uriOf args) = Some item →
  getMissingDependents (Some item) (dependents args) (fullDependents args)
    (full (options (loadAction args))) = [] →
  1 ≤ fuel →
  ∃ evs : list event,
    run fuel w (ensureLoaded formatContext args) st = Some [evs] ∧
    dispatched evs
    = stopLoading (uriOf args)
      :: (let uris :=
            getDependentUris (Some item) (dependents args)
              (fullDependents args) in
          if decide (uris = []) then [] else [loadItems (type args) uris])
      ++ callbackStep formatContext
           (callbackAction (options (loadAction args))) item ∧
    coldReads evs = [] ∧
    fetches evs = 0.
Proof.
  intros Hforce Hfound Hmiss Hfuel.
  eexists. split.
  { apply run_indexed; [done| |done].
    by apply completeItem_intro. }
  change (getDependentUris (Some item) _ _)
    with (dependentUris args (Some item)).
  lazy zeta.
  destruct (decide (dependentUris args (Some item) = [])).
  - rewrite !dispatched_cons, !coldReads_cons, !fetches_cons. cbn [app].
    by rewrite dispatched_dispatch, coldReads_dispatch, fetches_dispatch.
  - rewrite !dispatched_cons, !coldReads_cons, !fetches_cons. cbn [app].
    rewrite !dispatched_cons, !coldReads_cons, !fetches_cons.
    by rewrite dispatched_dispatch, coldReads_dispatch, fetches_dispatch.
Qed.

(** C2, amended: with [forceRefetch] true, [ensureLoaded] calls
    [store.getState()] once, as in every call, and then dispatches
    [setLoading(uri, true)] and nothing else, invokes [fetch()] once and
    never reads the cold store; what the index and the cold store hold has
    no influence on this. *)
Theorem ensureLoaded_forceRefetch (fuel : nat) (w : world) (args : Args)
    (st : State) :
  forceRefetch (options (loadAction args)) = true →
  1 ≤ fuel →
  ∃ evs : list event,
    run fuel w (ensureLoaded formatContext args) st = Some [evs] ∧
    dispatched evs = [setLoading (uriOf args) true] ∧
    fetches evs = 1 ∧
    coldReads evs = [] ∧
    indexReads evs = 1 ∧
    ∀ (w' : world) (st' : State),
      run fuel w' (ensureLoaded formatContext args) st' = Some [evs].
Proof.
  intros Hforce Hfuel. eexists. split; [by apply run_force|].
  repeat split. intros w' st'. by apply run_force.
Qed.


(** C4, amended: with [forceRefetch] false, no complete entity in the
    index and a complete one in the cold store, [ensureLoaded] never
    fetches.  The callback of the read dispatches the restoration of that
    one entity and then what the callback step dispatches.  When the
    entity has dependent URIs, the same turn reads all of them from the
    cold store, and one later turn dispatches a single restoration of the
    answers that are entities, the misses left out; when it has none,
    nothing is read and there is no second restoration. *)
Theorem ensureLoaded_restored (fuel : nat) (w : world) (args : Args)
    (st : State) (restored : entity) :
  forceRefetch (options (loadAction args)) = false →
  completeItem args (indexItem st (containerOf args) (uriOf args)) = None →
  completeItem args (getItem w (VStr (uriOf args))) = Some restored →
  3 ≤ fuel →
  ∃ (restoring reading : list event) (last : list (list event)),
    run fuel w (ensureLoaded formatContext args) st
    = Some ([EvGetState; EvGetItem (VStr (uriOf args))]
            :: (restoring ++ reading) :: last) ∧
    dispatched restoring
    = restoreItemsFromColdStore [restored]
      :: callbackStep formatContext
           (callbackAction (options (loadAction args))) restored ∧
    coldReads restoring = [] ∧
    dispatched reading = [] ∧
    coldReads reading = dependentUris args (Some restored) ∧
    fetches (restoring ++ reading) = 0 ∧
    last
    = (if decide (dependentUris args (Some restored) = []) then []
       else [[EvDispatch
                (restoreItemsFromColdStore
                   (compact
                      (getItem w <$> dependentUris args (Some restored))))]]).
Proof.
  intros Hforce Hindex Hcold Hfuel.
  eexists (_ :: _ :: (EvDispatch <$> _)), _, _. split.
  { rewrite (run_restored formatContext fuel w args st restored) by done.
    lazy zeta. cbn [app]. reflexivity. }
  rewrite fetches_app, !dispatched_cons, !coldReads_cons, !fetches_cons.
  rewrite dispatched_dispatch, coldReads_dispatch, fetches_dispatch.
  destruct (decide (dependentUris args (Some restored) = [])) as [->|Huris].
  - done.
  - rewrite dispatched_cons, coldReads_cons, fetches_cons.
    by rewrite coldReads_getItem, fetches_getItem, dispatched_getItem.
Qed.

(** C8: for an entity that is complete in the index, a second call
    right after the first, with the entity still in the index as it was,
    repeats the events of the first in the same turn, dispatches and all;
    and whatever the rest of the world is, a call on a state with that
    entity in the index has the same events. *)
Theorem ensureLoaded_twice (fuel : nat) (w : world) (args : Args)
    (st : State) (item : entity) :
  forceRefetch (options (loadAction args)) = false →
  completeItem args (indexItem st (containerOf args) (uriOf args))
  = Some item →
  indexItem (stateAfter w (ensureLoaded formatContext args) st)
    (containerOf args) (uriOf args)
  = indexItem st (containerOf args) (uriOf args) →
  1 ≤ fuel →
  ∃ evs : list event,
    run fuel w (ensureLoaded formatContext args) st = Some [evs] ∧
    run fuel w
      (andThen (ensureLoaded formatContext args)
         (ensureLoaded formatContext args)) st
    = Some [evs ++ evs] ∧
    dispatched (evs ++ evs) = dispatched evs ++ dispatched evs ∧
    ∀ (w' : world) (st' : State),
      indexItem st' (containerOf args) (uriOf args)
      = indexItem st (containerOf args) (uriOf args) →
      run fuel w' (ensureLoaded formatContext args) st' = Some [evs].
Proof.
  intros Hforce Hitem Hsame Hfuel.
  eexists. split; [by apply run_indexed|].
  split; [|split; [apply dispatched_app|]].
  - destruct (completeItem_Some _ _ _ Hitem) as [Hfound Hmiss].
    pose proof (turn_indexed formatContext w args st item
                  Hforce Hfound Hmiss) as Hfirst.
    rewrite Hfound in Hsame.
    pose proof (turn_indexed formatContext w args _ item
                  Hforce Hsame Hmiss) as Hsecond.
    apply (run_fuel 1); [|done]. unfold run. cbn [eventLoop].
    rewrite turn_andThen. unfold stateAfter in Hsecond.
    destruct (turn w (ensureLoaded formatContext args) st)
      as [[evs1 cbs1] st1].
    cbn [fst snd] in Hfirst, Hsecond.
    destruct (turn w (ensureLoaded formatContext args) st1)
      as [[evs2 cbs2] st2].
    cbn [fst] in Hsecond. by simplify_eq.
  - intros w' st' Hst'. apply run_indexed; [done| |done].
    by rewrite Hst'.
Qed.

(** C9: whatever the branch, a call invokes [fetch()] at most once, and
    a [fetch()] comes right after the dispatch of
    [setLoading(uri, true)]. *)
Theorem ensureLoaded_fetch_guarded (fuel : nat) (w : world) (args : Args)
    (st : State) :
  3 ≤ fuel →
  ∃ turns : list (list event),
    run fuel w (ensureLoaded formatContext args) st = Some turns ∧
    fetches (concat turns) ≤ 1 ∧
    fetchGuarded (uriOf args) (concat turns).
Proof.
  intros Hfuel.
  destruct (forceRefetch (options (loadAction args))) eqn:Hforce.
  { eexists. split; [apply run_force; [done|lia]|].
    split; [by cbn|]. cbn [concat app].
    do 2 (apply fetchGuarded_cons; [done|]). apply fetchGuarded_signal. }
  destruct (completeItem args
              (indexItem st (containerOf args) (uriOf args)))
    as [item|] eqn:Hindex.
  { eexists. split; [apply run_indexed; [done..|lia]|].
    cbn [concat]. rewrite app_nil_r.
    lazy zeta.
    match goal with
    | |- fetches ?l ≤ 1 ∧ _ => assert (fetches l = 0) as Hnone
    end.
    { rewrite !fetches_cons, fetches_app, fetches_dispatch.
      by destruct (decide (dependentUris args (Some item) = [])). }
    split; [lia | by apply fetchGuarded_no_fetch]. }
  destruct (completeItem args (getItem w (VStr (uriOf args))))
    as [restored|] eqn:Hcold.
  - eexists. split; [by apply run_restored|]. lazy zeta.
    assert (∀ (second : list event) (last : list (list event)),
              fetches second = 0 → fetches (concat last) = 0 →
              fetches (concat ([[EvGetState;
                                 EvGetItem (VStr (uriOf args))];
                                second] ++ last)) = 0) as Hconcat.
    { intros second last Hsecond Hlast. cbn [concat app].
      by rewrite !fetches_cons, fetches_app, Hsecond, Hlast. }
    match goal with
    | |- fetches ?l ≤ 1 ∧ _ => assert (fetches l = 0) as Hnone
    end.
    { apply Hconcat.
      - rewrite !fetches_cons, fetches_app, fetches_dispatch.
        destruct (decide (dependentUris args (Some restored) = []));
          [done|].
        by rewrite fetches_cons, fetches_getItem.
      - by destruct (decide (dependentUris args (Some restored) = [])). }
    split; [lia | by apply fetchGuarded_no_fetch].
  - eexists. split; [apply run_fetch_after_miss; [done..|lia]|].
    split; [by cbn|]. cbn [concat app].
    do 2 (apply fetchGuarded_cons; [done|]). apply fetchGuarded_signal.
Qed.

(** C10: in the branch that restores a complete entity from the cold
    store, no turn dispatches [setLoading] or [stopLoading]. *)
Theorem ensureLoaded_restored_no_signal (fuel : nat) (w : world)
    (args : Args) (st : State) (restored : entity) :
  forceRefetch (options (loadAction args)) = false →
  completeItem args (indexItem st (containerOf args) (uriOf args)) = None →
  completeItem args (getItem w (VStr (uriOf args))) = Some restored →
  3 ≤ fuel →
  ∃ turns : list (list event),
    run fuel w (ensureLoaded formatContext args) st = Some turns ∧
    Forall (λ a, isLoadingSignal a = false) (dispatched (concat turns)).
Proof.
  intros Hforce Hindex Hcold Hfuel.
  eexists. split; [by apply run_restored|]. lazy zeta.
  cbn [concat app]. rewrite !dispatched_cons, !dispatched_app.
  rewrite dispatched_dispatch.
  apply Forall_cons. split; [done|].
  rewrite !Forall_app. split; [split|].
  - eapply Forall_impl; [apply callbackStep_no_signal|].
    by intros a [? _].
  - destruct (decide (dependentUris args (Some restored) = []));
      [done|].
    by rewrite dispatched_cons, dispatched_getItem.
  - destruct (decide (dependentUris args (Some restored) = []));
      [done|].
    cbn. by repeat constructor.
Qed.

End Claims.

(** ** The claims on the sample data *)

Section ClaimsOnSamples.

Local Existing Instance SampleEngine.standard.

(** Scenarios A and E: [foo] in the index, a [play] callback. *)
Lemma ensureLoaded_index_satisfied_witness :
  ∃ evs : list event,
    run 1 (Sample.idle Sample.coldEmpty)
      (ensureLoaded Sample.formatContext
         (Sample.request false (Some Sample.play)))
      Sample.indexWithFoo
    = Some [evs] ∧
    dispatched evs
    = [stopLoading "x";
       loadItems "artists" [VStr "a"; VStr "b"];
       playURIs (callbackPayload Sample.formatContext Sample.play Sample.foo)]
    ∧ coldReads evs = [] ∧ fetches evs = 0.
Proof.
  destruct (ensureLoaded_index_satisfied Sample.formatContext 1
              (Sample.idle Sample.coldEmpty)
              (Sample.request false (Some Sample.play))
              Sample.indexWithFoo Sample.foo)
    as (evs & Hrun & Hdispatched & Hcold & Hfetch).
  - reflexivity.
  - vm_compute. reflexivity.
  - vm_compute. reflexivity.
  - lia.
  - exists evs. split; [exact Hrun|]. split; [|by split].
    rewrite Hdispatched. vm_compute. reflexivity.
Defined.

(** Scenario D. *)
Lemma ensureLoaded_forceRefetch_witness :
  ∃ evs : list event,
    run 1 (Sample.idle Sample.coldFoo)
      (ensureLoaded Sample.formatContext (Sample.request true None))
      Sample.indexWithFoo
    = Some [evs] ∧
    dispatched evs = [setLoading "x" true] ∧
    fetches evs = 1 ∧ coldReads evs = [] ∧ indexReads evs = 1.
Proof.
  destruct (ensureLoaded_forceRefetch Sample.formatContext 1
              (Sample.idle Sample.coldFoo) (Sample.request true None)
              Sample.indexWithFoo)
    as (evs & Hrun & Hdispatched & Hfetch & Hcold & Hindex & _).
  - reflexivity.
  - lia.
  - by exists evs.
Defined.

(** C2 as written fails: the forced refetch does read the index, by the
    [store.getState()] at the head of [ensureLoaded]. *)
Lemma forceRefetch_reads_index :
  ∃ evs : list event,
    forceRefetch (options (loadAction (Sample.request true None))) = true ∧
    run 1 (Sample.idle Sample.coldEmpty)
      (ensureLoaded Sample.formatContext (Sample.request true None))
      Sample.emptyIndex
    = Some [evs] ∧
    indexReads evs = 1.
Proof.
  eexists. split; [reflexivity|]. split; [vm_compute; reflexivity|].
  reflexivity.
Qed.


(** Scenario B: [foo] and one of its two artists in the cold store. *)
Lemma ensureLoaded_restored_witness :
  ∃ (restoring reading : list event) (last : list (list event)),
    run 3 (Sample.idle Sample.coldFoo)
      (ensureLoaded Sample.formatContext (Sample.request false None))
      Sample.emptyIndex
    = Some ([EvGetState; EvGetItem (VStr "x")]
            :: (restoring ++ reading) :: last) ∧
    dispatched restoring = [restoreItemsFromColdStore [Sample.foo]] ∧
    coldReads reading = [VStr "a"; VStr "b"] ∧
    fetches (restoring ++ reading) = 0 ∧
    last = [[EvDispatch (restoreItemsFromColdStore [Sample.artistA])]].
Proof.
  destruct (ensureLoaded_restored Sample.formatContext 3
              (Sample.idle Sample.coldFoo) (Sample.request false None)
              Sample.emptyIndex Sample.foo)
    as (restoring & reading & last & Hrun & Hdispatched & _ & _ & Hcold
        & Hfetch & Hlast).
  - reflexivity.
  - vm_compute. reflexivity.
  - vm_compute. reflexivity.
  - lia.
  - exists restoring, reading, last. split; [exact Hrun|].
    split; [exact Hdispatched|]. split; [|split; [exact Hfetch|]].
    + rewrite Hcold. vm_compute. reflexivity.
    + rewrite Hlast. vm_compute. reflexivity.
Defined.

(** C4 as written fails for an entity without dependent URIs: the one
    restoration of the entity is all that is dispatched. *)
Lemma restored_without_dependents :
  completeItem (Sample.request false None) (Sample.coldBar (VStr "x"))
  = Some Sample.bar ∧
  ∃ turns : list (list event),
    run 3 (Sample.idle Sample.coldBar)
      (ensureLoaded Sample.formatContext (Sample.request false None))
      Sample.emptyIndex
    = Some turns ∧
    length turns = 2 ∧
    dispatched (concat turns) = [restoreItemsFromColdStore [Sample.bar]].
Proof.
  split; [vm_compute; reflexivity|].
  eexists. split; [vm_compute; reflexivity|]. split; reflexivity.
Qed.

Lemma ensureLoaded_twice_witness :
  ∃ evs : list event,
    run 1 (Sample.idle Sample.coldEmpty)
      (ensureLoaded Sample.formatContext
         (Sample.request false (Some Sample.play)))
      Sample.indexWithFoo
    = Some [evs] ∧
    run 1 (Sample.idle Sample.coldEmpty)
      (andThen
         (ensureLoaded Sample.formatContext
            (Sample.request false (Some Sample.play)))
         (ensureLoaded Sample.formatContext
            (Sample.request false (Some Sample.play))))
      Sample.indexWithFoo
    = Some [evs ++ evs] ∧
    length (dispatched evs) = 3.
Proof.
  destruct (ensureLoaded_twice Sample.formatContext 1
              (Sample.idle Sample.coldEmpty)
              (Sample.request false (Some Sample.play))
              Sample.indexWithFoo Sample.foo)
    as (evs & Hrun & Htwice & _ & _).
  - reflexivity.
  - vm_compute. reflexivity.
  - vm_compute. reflexivity.
  - lia.
  - exists evs. split; [exact Hrun|]. split; [exact Htwice|].
    vm_compute in Hrun. by simplify_eq.
Defined.

Lemma ensureLoaded_fetch_guarded_witness :
  ∃ turns : list (list event),
    run 3 (Sample.idle Sample.coldEmpty)
      (ensureLoaded Sample.formatContext (Sample.request false None))
      Sample.emptyIndex
    = Some turns ∧
    fetches (concat turns) ≤ 1 ∧
    fetchGuarded "x" (concat turns).
Proof.
  apply (ensureLoaded_fetch_guarded Sample.formatContext 3
           (Sample.idle Sample.coldEmpty) (Sample.request false None)
           Sample.emptyIndex).
  lia.
Defined.

Lemma ensureLoaded_restored_no_signal_witness :
  ∃ turns : list (list event),
    run 3 (Sample.idle Sample.coldFoo)
      (ensureLoaded Sample.formatContext
         (Sample.request false (Some Sample.play)))
      Sample.emptyIndex
    = Some turns ∧
    Forall (λ a, isLoadingSignal a = false) (dispatched (concat turns)).
Proof.
  apply (ensureLoaded_restored_no_signal Sample.formatContext 3
           (Sample.idle Sample.coldFoo)
           (Sample.request false (Some Sample.play))
           Sample.emptyIndex Sample.foo).
  - reflexivity.
  - vm_compute. reflexivity.
  - vm_compute. reflexivity.
  - lia.
Defined.

End ClaimsOnSamples.

(** * Further properties *)

(** ** The dependent inspection *)

(** X1: a dependent name passes the test of [getUrisOfDependent] exactly
    when [_uri] occurs somewhere in it; neither its position nor a line
    break in the name matters. *)
Theorem matchUriPattern_substring (name : string) :
  matchUriPattern name = true ↔ ∃ pre post, name = pre +:+ "_uri" +:+ post.
Proof. rewrite matchUriPattern_contains. apply contains_spec. Qed.

Section MoreOnInspection.

Context {engine : Engine}.

Lemma filter_isUndefinedOrNull_nil (item : entity) (names : list string) :
  List.filter (λ dep, isUndefinedOrNull (read item dep)) names = []
  ↔ Forall (λ name, match item !! name with
                    | Some v => v ≠ VUndefined ∧ v ≠ VNull
                    | None => name ∈ objectPrototypeNames
                    end) names.
Proof.
  induction names as [|name names IH]; cbn [List.filter].
  - split; [constructor | done].
  - rewrite Forall_cons, <-IH.
    destruct (item !! name) as [v|] eqn:Hown.
    + rewrite (read_own _ _ _ Hown).
      destruct v; cbn [isUndefinedOrNull];
        split; try done; try (by intros [[??] ?]); by intros ->.
    + destruct (decide (name ∈ objectPrototypeNames)) as [Hin|Hout].
      * rewrite read_inherited by done. cbn [isUndefinedOrNull].
        split; [done | by intros [_ ?]].
      * rewrite read_nothing by done. cbn [isUndefinedOrNull].
        split; [done | by intros [? _]].
Qed.

(** X2: for an item that is there, [getMissingDependents] is empty exactly
    when every name it has to look at ([dependents], and [fullDependents]
    too when [full]) is an own property with a value other than undefined
    and null, or is no own property but a name of [Object.prototype]. *)
Theorem getMissingDependents_nil (item : entity)
    (dependents fullDependents : option (list string)) (full : bool) :
  getMissingDependents (Some item) dependents fullDependents full = []
  ↔ Forall (λ name, match item !! name with
                    | Some v => v ≠ VUndefined ∧ v ≠ VNull
                    | None => name ∈ objectPrototypeNames
                    end)
      (if full then default [] dependents ++ default [] fullDependents
       else default [] dependents).
Proof.
  unfold getMissingDependents. destruct full; apply filter_isUndefinedOrNull_nil.
Qed.

(** X3: what is missing with [full] is what is missing without it,
    followed by what is missing among [fullDependents]. *)
Theorem getMissingDependents_full (item : entity)
    (dependents fullDependents : option (list string)) :
  getMissingDependents (Some item) dependents fullDependents true
  = getMissingDependents (Some item) dependents fullDependents false
    ++ getMissingDependents (Some item) fullDependents None false.
Proof. unfold getMissingDependents. apply List.filter_app. Qed.

(** X4: the dependent URIs are those of [dependents] followed by those of
    [fullDependents]: the two lists are looked at independently. *)
Theorem getDependentUris_app (item : option entity)
    (dependents fullDependents : option (list string)) :
  getDependentUris item dependents fullDependents
  = getDependentUris item dependents None
    ++ getDependentUris item fullDependents None.
Proof.
  unfold getDependentUris. destruct item as [item|]; [|done].
  rewrite !fold_left_app_bind. cbn [default app].
  by rewrite !app_nil_r, bind_app.
Qed.

(** X5: a value is among the dependent URIs exactly when it is an element
    of an array that the item has under a declared name containing
    [_uri]. *)
Theorem elem_of_getDependentUris (item : entity)
    (dependents fullDependents : option (list string)) (u : value) :
  u ∈ getDependentUris (Some item) dependents fullDependents
  ↔ ∃ (name : string) (elems : list value),
      name ∈ default [] dependents ++ default [] fullDependents ∧
      (∃ pre post, name = pre +:+ "_uri" +:+ post) ∧
      item !! name = Some (VArr elems) ∧
      u ∈ elems.
Proof.
  unfold getDependentUris. rewrite fold_left_app_bind. cbn [app].
  rewrite list_elem_of_bind. split.
  - intros (name & Hu & Hname). rewrite getUrisOfDependent_spec in Hu.
    destruct (contains "_uri" name) eqn:Hpat; [|by apply elem_of_nil in Hu].
    destruct (item !! name) as [[| | | | |elems|]|] eqn:Hget;
      try by apply elem_of_nil in Hu.
    exists name, elems. by rewrite <-contains_spec.
  - intros (name & elems & Hname & Hpat & Hget & Hu).
    exists name. split; [|done]. rewrite getUrisOfDependent_spec, Hget.
    apply contains_spec in Hpat. by rewrite Hpat.
Qed.

End MoreOnInspection.

(** ** Every run of ensureLoaded *)

Lemma handedToFetch_false (evs : list event) :
  fetches evs = 0 → handedToFetch evs = false.
Proof.
  unfold handedToFetch. induction evs as [|e evs IH]; [done|].
  rewrite fetches_cons. cbn [existsb].
  destruct (isFetch e); [lia|]. intros Hevs. by rewrite IH by lia.
Qed.

Lemma existsb_Forall_false {A} (f : A → bool) (l : list A) :
  Forall (λ x, f x = false) l → existsb f l = false.
Proof.
  induction 1 as [|x l Hx _ IH]; [done|]. cbn [existsb]. by rewrite Hx, IH.
Qed.

Lemma indexReads_getItem (keys : list value) :
  indexReads (EvGetItem <$> keys) = 0.
Proof. by induction keys. Qed.

Section Runs.

Context {engine : Engine}.
Variable formatContext : entity → value.

(** With three turns of fuel every call runs to its end, in one of the
    four shapes. *)
Lemma run_shape (fuel : nat) (w : world) (args : Args) (st : State) :
  3 ≤ fuel →
  ∃ turns : list (list event),
    run fuel w (ensureLoaded formatContext args) st = Some turns ∧
    runShape formatContext w args st turns.
Proof.
  intros Hfuel.
  destruct (forceRefetch (options (loadAction args))) eqn:Hforce.
  { eexists. split; [apply run_force; [done|lia]|]. by constructor. }
  destruct (completeItem args
              (indexItem st (containerOf args) (uriOf args)))
    as [item|] eqn:Hindex.
  { exists [indexedTurn formatContext args item].
    split; [apply run_indexed; [done..|lia]|]. by constructor. }
  destruct (completeItem args (getItem w (VStr (uriOf args))))
    as [restored|] eqn:Hcold.
  - exists (restoredTurns formatContext w args restored).
    split; [by apply run_restored|]. by constructor.
  - exists (fetchTurns args).
    split; [apply run_fetch_after_miss; [done..|lia]|]. by constructor.
Qed.

(** What the events of a shape come to. *)
Lemma runShape_summary (w : world) (args : Args) (st : State)
    (turns : list (list event)) :
  runShape formatContext w args st turns →
  length turns ≤ 3 ∧
  (∃ rest, concat turns = EvGetState :: rest) ∧
  indexReads (concat turns) = 1 ∧
  ((handedToFetch (concat turns) = true ∧
    dispatched (concat turns) = [setLoading (uriOf args) true])
   ∨ (handedToFetch (concat turns) = false ∧
      ∃ tail,
        dispatched (concat turns) = stopLoading (uriOf args) :: tail ∧
        Forall (λ a, isLoadingSignal a = false ∧ isRestore a = false) tail)
   ∨ (handedToFetch (concat turns) = false ∧
      ∃ restored tail,
        dispatched (concat turns)
        = restoreItemsFromColdStore [restored] :: tail ∧
        Forall (λ a, isLoadingSignal a = false) tail)).
Proof.
  intros [Hforce|item Hforce Hindex|Hforce Hindex Hcold
          |restored Hforce Hindex Hcold].
  - split; [cbn; lia|]. split; [by eexists|]. split; [done|]. by left.
  - split; [cbn; lia|]. split; [by eexists|].
    unfold indexedTurn. lazy zeta. cbn [concat]. rewrite app_nil_r.
    rewrite !indexReads_cons, indexReads_app, indexReads_dispatch.
    rewrite !dispatched_cons, dispatched_app, dispatched_dispatch.
    split; [by destruct (decide (dependentUris args (Some item) = []))|].
    right. left. split.
    + apply handedToFetch_false.
      rewrite !fetches_cons, fetches_app, fetches_dispatch.
      by destruct (decide (dependentUris args (Some item) = [])).
    + eexists. split; [done|]. apply Forall_app. split.
      * destruct (decide (dependentUris args (Some item) = []));
          [constructor|]. by repeat constructor.
      * apply callbackStep_no_signal.
  - split; [cbn; lia|]. split; [by eexists|]. split; [done|]. by left.
  - unfold restoredTurns. lazy zeta.
    split.
    { destruct (decide (dependentUris args (Some restored) = []));
        cbn; lia. }
    cbn [concat app].
    split; [by eexists|].
    rewrite !indexReads_cons, !indexReads_app, indexReads_dispatch.
    rewrite !dispatched_cons, !dispatched_app, dispatched_dispatch.
    split.
    { destruct (decide (dependentUris args (Some restored) = [])); [done|].
      cbn [concat app]. by rewrite indexReads_cons, indexReads_getItem. }
    right. right. split.
    + apply handedToFetch_false.
      rewrite !fetches_cons, !fetches_app, fetches_dispatch.
      destruct (decide (dependentUris args (Some restored) = [])); [done|].
      cbn [concat app]. by rewrite !fetches_cons, fetches_getItem.
    + eexists _, _. split; [done|]. rewrite !Forall_app. split; [split|].
      * eapply Forall_impl; [apply callbackStep_no_signal|].
        by intros a [? _].
      * destruct (decide (dependentUris args (Some restored) = []));
          [constructor|].
        rewrite dispatched_cons, dispatched_getItem. constructor.
      * destruct (decide (dependentUris args (Some restored) = []));
          [constructor|]. by repeat constructor.
Qed.

End Runs.

Lemma compact_all_missed (cold : value → option entity) (keys : list value) :
  Forall (λ key, cold key = None) keys → compact (cold <$> keys) = [].
Proof.
  unfold compact. induction 1 as [|key keys Hkey _ IH]; [done|].
  cbn [fmap list_fmap omap]. by rewrite Hkey.
Qed.

Section MoreOnRuns.

Context {engine : Engine}.
Variable formatContext : entity → value.

(** X6: the index-satisfied branch loads the URIs found under
    [fullDependents] as well, also in a call without [full], for which
    only [dependents] decide whether the entity is complete. *)
Theorem ensureLoaded_loads_full_dependents (fuel : nat) (w : world)
    (args : Args) (st : State) (item : entity) :
  forceRefetch (options (loadAction args)) = false →
  full (options (loadAction args)) = false →
  indexItem st (containerOf args) (uriOf args) = Some item →
  getMissingDependents (Some item) (dependents args) None false = [] →
  getDependentUris (Some item) (fullDependents args) None ≠ [] →
  1 ≤ fuel →
  ∃ evs : list event,
    run fuel w (ensureLoaded formatContext args) st = Some [evs] ∧
    loadItems (type args)
      (getDependentUris (Some item) (dependents args) None
       ++ getDependentUris (Some item) (fullDependents args) None)
    ∈ dispatched evs.
Proof.
  intros Hforce Hfull Hfound Hmiss Hmore Hfuel.
  assert (missingDependents args (Some item) = []) as Hcomplete.
  { unfold missingDependents, getMissingDependents. by rewrite Hfull. }
  assert (dependentUris args (Some item)
          = getDependentUris (Some item) (dependents args) None
            ++ getDependentUris (Some item) (fullDependents args) None)
    as Huris.
  { unfold dependentUris, getDependentUris. rewrite !fold_left_app_bind.
    cbn [default app]. by rewrite !app_nil_r, bind_app. }
  eexists. split.
  { apply run_indexed; [done| |done]. by apply completeItem_intro. }
  lazy zeta. rewrite Huris.
  rewrite decide_False by (by intros [_ ?]%app_eq_nil).
  rewrite !dispatched_cons. cbn [app]. rewrite !dispatched_cons.
  apply list_elem_of_further, list_elem_of_here.
Qed.

(** X7: the loading signals of a call are about the requested URI and
    nothing else: [stopLoading(uri)] or [setLoading(uri, true)], never a
    [setLoading] to false. *)
Theorem ensureLoaded_signals_own_uri (fuel : nat) (w : world) (args : Args)
    (st : State) :
  3 ≤ fuel →
  ∃ turns : list (list event),
    run fuel w (ensureLoaded formatContext args) st = Some turns ∧
    Forall (λ a, isLoadingSignal a = true →
                 a = stopLoading (uriOf args)
                 ∨ a = setLoading (uriOf args) true)
      (dispatched (concat turns)).
Proof.
  intros Hfuel.
  destruct (run_shape formatContext fuel w args st Hfuel)
    as (turns & Hrun & Hshape).
  exists turns. split; [done|].
  destruct (runShape_summary formatContext w args st turns Hshape)
    as (_ & _ & _ & [[_ ->]|[(_ & tail & -> & Htail)
                            |(_ & restored & tail & -> & Htail)]]).
  - constructor; [by right | constructor].
  - constructor; [by left|].
    eapply Forall_impl; [exact Htail|]. intros a [Ha _]. congruence.
  - constructor; [done|].
    eapply Forall_impl; [exact Htail|]. intros a Ha. congruence.
Qed.

(** X8: a call ends in exactly one of three ways: it says
    [stopLoading], or it invokes [fetch()], or it dispatches a
    restoration from the cold store. *)
Theorem ensureLoaded_one_outcome (fuel : nat) (w : world) (args : Args)
    (st : State) :
  3 ≤ fuel →
  ∃ turns : list (list event),
    run fuel w (ensureLoaded formatContext args) st = Some turns ∧
    (if servedByIndex (concat turns) then 1 else 0)
    + (if handedToFetch (concat turns) then 1 else 0)
    + (if restoredFromColdStore (concat turns) then 1 else 0) = 1.
Proof.
  intros Hfuel.
  destruct (run_shape formatContext fuel w args st Hfuel)
    as (turns & Hrun & Hshape).
  exists turns. split; [done|]. unfold servedByIndex, restoredFromColdStore.
  destruct (runShape_summary formatContext w args st turns Hshape)
    as (_ & _ & _ & [[-> ->]|[(-> & tail & -> & Htail)
                             |(-> & restored & tail & -> & Htail)]]).
  - done.
  - cbn [existsb isStopLoading isRestore orb].
    rewrite (existsb_Forall_false isRestore tail); [done|].
    eapply Forall_impl; [exact Htail|]. by intros a [_ ?].
  - cbn [existsb isStopLoading isRestore orb].
    rewrite (existsb_Forall_false isStopLoading tail); [done|].
    eapply Forall_impl; [exact Htail|]. by intros [] Ha.
Qed.

(** X9: a call invokes [fetch()] exactly when [setLoading(uri, true)] is
    all it dispatches: an entity that has to be fetched gets no enqueue or
    play request, whatever the [callbackAction]. *)
Theorem ensureLoaded_fetch_drops_callback (fuel : nat) (w : world)
    (args : Args) (st : State) :
  3 ≤ fuel →
  ∃ turns : list (list event),
    run fuel w (ensureLoaded formatContext args) st = Some turns ∧
    (handedToFetch (concat turns) = true
     ↔ dispatched (concat turns) = [setLoading (uriOf args) true]).
Proof.
  intros Hfuel.
  destruct (run_shape formatContext fuel w args st Hfuel)
    as (turns & Hrun & Hshape).
  exists turns. split; [done|].
  destruct (runShape_summary formatContext w args st turns Hshape)
    as (_ & _ & _ & [[-> ->]|[(-> & tail & -> & Htail)
                             |(-> & restored & tail & -> & Htail)]]);
    by split.
Qed.

(** X10: when the restored entity has dependent URIs and the cold store
    holds none of them, the last turn still dispatches a restoration, of
    no entity at all. *)
Theorem ensureLoaded_restores_no_dependent (fuel : nat) (w : world)
    (args : Args) (st : State) (restored : entity) :
  forceRefetch (options (loadAction args)) = false →
  completeItem args (indexItem st (containerOf args) (uriOf args)) = None →
  completeItem args (getItem w (VStr (uriOf args))) = Some restored →
  dependentUris args (Some restored) ≠ [] →
  Forall (λ key, getItem w key = None) (dependentUris args (Some restored)) →
  3 ≤ fuel →
  ∃ first second : list event,
    run fuel w (ensureLoaded formatContext args) st
    = Some [first; second; [EvDispatch (restoreItemsFromColdStore [])]].
Proof.
  intros Hforce Hindex Hcold Huris Hmissed Hfuel.
  rewrite (run_restored formatContext fuel w args st restored) by done.
  lazy zeta. rewrite !decide_False by done.
  rewrite compact_all_missed by done. by eexists _, _.
Qed.

(** X11: a call is over after at most three turns, and it reads the
    store's state once, as its very first step; the callbacks never read
    it again. *)
Theorem ensureLoaded_reads_state_once (fuel : nat) (w : world) (args : Args)
    (st : State) :
  3 ≤ fuel →
  ∃ turns : list (list event),
    run fuel w (ensureLoaded formatContext args) st = Some turns ∧
    length turns ≤ 3 ∧
    (∃ rest, concat turns = EvGetState :: rest) ∧
    indexReads (concat turns) = 1.
Proof.
  intros Hfuel.
  destruct (run_shape formatContext fuel w args st Hfuel)
    as (turns & Hrun & Hshape).
  exists turns. split; [done|].
  by destruct (runShape_summary formatContext w args st turns Hshape)
    as (? & ? & ? & _).
Qed.

(** X12: an entity that is in the index but misses a dependent counts
    for nothing: the call runs as it does when the index has no entry. *)
Theorem ensureLoaded_incomplete_as_absent (fuel : nat) (w : world)
    (args : Args) (st st' : State) :
  forceRefetch (options (loadAction args)) = false →
  completeItem args (indexItem st (containerOf args) (uriOf args)) = None →
  completeItem args (indexItem st' (containerOf args) (uriOf args)) = None →
  3 ≤ fuel →
  is_Some (run fuel w (ensureLoaded formatContext args) st) ∧
  run fuel w (ensureLoaded formatContext args) st
  = run fuel w (ensureLoaded formatContext args) st'.
Proof.
  intros Hforce Hindex Hindex' Hfuel.
  destruct (completeItem args (getItem w (VStr (uriOf args))))
    as [restored|] eqn:Hcold.
  - rewrite !(run_restored formatContext fuel w args _ restored) by done.
    by split.
  - rewrite !(run_fetch_after_miss formatContext fuel w args) by (done || lia).
    by split.
Qed.

End MoreOnRuns.

(** *** On the sample data *)

Section RunsOnSamples.

Local Existing Instance SampleEngine.standard.

Lemma ensureLoaded_loads_full_dependents_witness :
  ∃ evs : list event,
    run 1 (Sample.idle Sample.coldEmpty)
      (ensureLoaded Sample.formatContext SampleViews.requestWithFull)
      Sample.indexWithFoo
    = Some [evs] ∧
    loadItems "artists" [VStr "a"; VStr "b"] ∈ dispatched evs.
Proof.
  destruct (ensureLoaded_loads_full_dependents Sample.formatContext 1
              (Sample.idle Sample.coldEmpty) SampleViews.requestWithFull
              Sample.indexWithFoo Sample.foo)
    as (evs & Hrun & Hloads).
  - reflexivity.
  - reflexivity.
  - vm_compute. reflexivity.
  - vm_compute. reflexivity.
  - vm_compute. discriminate.
  - lia.
  - exists evs. split; [exact Hrun|]. exact Hloads.
Defined.

Lemma ensureLoaded_signals_own_uri_witness :
  ∃ turns : list (list event),
    run 3 (Sample.idle Sample.coldFoo)
      (ensureLoaded Sample.formatContext
         (Sample.request false (Some Sample.play)))
      Sample.indexWithFoo
    = Some turns ∧
    Forall (λ a, isLoadingSignal a = true →
                 a = stopLoading "x" ∨ a = setLoading "x" true)
      (dispatched (concat turns)).
Proof.
  apply (ensureLoaded_signals_own_uri Sample.formatContext 3
           (Sample.idle Sample.coldFoo)
           (Sample.request false (Some Sample.play)) Sample.indexWithFoo).
  lia.
Defined.

Lemma ensureLoaded_one_outcome_witness :
  ∃ turns : list (list event),
    run 3 (Sample.idle Sample.coldFoo)
      (ensureLoaded Sample.formatContext (Sample.request false None))
      Sample.emptyIndex
    = Some turns ∧
    (if servedByIndex (concat turns) then 1 else 0)
    + (if handedToFetch (concat turns) then 1 else 0)
    + (if restoredFromColdStore (concat turns) then 1 else 0) = 1.
Proof.
  apply (ensureLoaded_one_outcome Sample.formatContext 3
           (Sample.idle Sample.coldFoo) (Sample.request false None)
           Sample.emptyIndex).
  lia.
Defined.

Lemma ensureLoaded_fetch_drops_callback_witness :
  ∃ turns : list (list event),
    run 3 (Sample.idle Sample.coldEmpty)
      (ensureLoaded Sample.formatContext
         (Sample.request false (Some Sample.play)))
      Sample.emptyIndex
    = Some turns ∧
    (handedToFetch (concat turns) = true
     ↔ dispatched (concat turns) = [setLoading "x" true]).
Proof.
  apply (ensureLoaded_fetch_drops_callback Sample.formatContext 3
           (Sample.idle Sample.coldEmpty)
           (Sample.request false (Some Sample.play)) Sample.emptyIndex).
  lia.
Defined.

Lemma ensureLoaded_restores_no_dependent_witness :
  ∃ first second : list event,
    run 3 (Sample.idle SampleViews.coldFooAlone)
      (ensureLoaded Sample.formatContext (Sample.request false None))
      Sample.emptyIndex
    = Some [first; second; [EvDispatch (restoreItemsFromColdStore [])]].
Proof.
  apply (ensureLoaded_restores_no_dependent Sample.formatContext 3
           (Sample.idle SampleViews.coldFooAlone)
           (Sample.request false None) Sample.emptyIndex Sample.foo).
  - reflexivity.
  - vm_compute. reflexivity.
  - vm_compute. reflexivity.
  - vm_compute. discriminate.
  - vm_compute. repeat constructor.
  - lia.
Defined.

Lemma ensureLoaded_reads_state_once_witness :
  ∃ turns : list (list event),
    run 3 (Sample.idle Sample.coldFoo)
      (ensureLoaded Sample.formatContext (Sample.request false None))
      Sample.emptyIndex
    = Some turns ∧
    length turns ≤ 3 ∧
    (∃ rest, concat turns = EvGetState :: rest) ∧
    indexReads (concat turns) = 1.
Proof.
  apply (ensureLoaded_reads_state_once Sample.formatContext 3
           (Sample.idle Sample.coldFoo) (Sample.request false None)
           Sample.emptyIndex).
  lia.
Defined.

Lemma ensureLoaded_incomplete_as_absent_witness :
  is_Some
    (run 3 (Sample.idle Sample.coldFoo)
       (ensureLoaded Sample.formatContext (Sample.request false None))
       SampleViews.indexWithBareFoo) ∧
  run 3 (Sample.idle Sample.coldFoo)
    (ensureLoaded Sample.formatContext (Sample.request false None))
    SampleViews.indexWithBareFoo
  = run 3 (Sample.idle Sample.coldFoo)
      (ensureLoaded Sample.formatContext (Sample.request false None))
      Sample.emptyIndex.
Proof.
  apply (ensureLoaded_incomplete_as_absent Sample.formatContext 3
           (Sample.idle Sample.coldFoo) (Sample.request false None)
           SampleViews.indexWithBareFoo Sample.emptyIndex).
  - reflexivity.
  - vm_compute. reflexivity.
  - vm_compute. reflexivity.
  - lia.
Defined.

End RunsOnSamples.

(** ** Names that Object.prototype provides *)

Section Inherited.

Context {engine : Engine}.
Variable formatContext : entity → value.

Lemma indexItem_inherited (st : State) (containerName uri : string) :
  uri ∈ objectPrototypeNames →
  containerName ∉ objectPrototypeNames →
  (∀ container, default ∅ (core st) !! containerName = Some container →
                container !! uri = None) →
  indexItem st containerName uri = Some (builtin uri).
Proof.
  intros Huri Hcontainer Hnone. unfold indexItem, entryOf.
  destruct (default ∅ (core st) !! containerName) as [container|] eqn:Hc.
  - rewrite (Hnone container eq_refl). by rewrite decide_True.
  - rewrite decide_False by done. by rewrite lookup_empty, decide_True.
Qed.

(** X24: a URI that is a name of [Object.prototype] is served from the
    index although the store holds no entity under it: the built-in of
    that name passes for the item, and when it misses no dependent the
    call says [stopLoading(uri)], reads nothing from the cold store and
    does not fetch. *)
Theorem ensureLoaded_inherited_uri (fuel : nat) (w : world) (args : Args)
    (st : State) :
  forceRefetch (options (loadAction args)) = false →
  uriOf args ∈ objectPrototypeNames →
  containerOf args ∉ objectPrototypeNames →
  (∀ container,
     default ∅ (core st) !! containerOf args = Some container →
     container !! uriOf args = None) →
  missingDependents args (Some (builtin (uriOf args))) = [] →
  1 ≤ fuel →
  ∃ evs : list event,
    run fuel w (ensureLoaded formatContext args) st = Some [evs] ∧
    stopLoading (uriOf args) ∈ dispatched evs ∧
    coldReads evs = [] ∧
    fetches evs = 0.
Proof.
  intros Hforce Huri Hcontainer Hnone Hcomplete Hfuel.
  eexists. split.
  { apply run_indexed; [done| |done].
    apply completeItem_intro; [|done]. by apply indexItem_inherited. }
  lazy zeta. rewrite !dispatched_cons, !coldReads_cons, !fetches_cons.
  rewrite coldReads_app, fetches_app, coldReads_dispatch, fetches_dispatch.
  split; [apply list_elem_of_here|].
  by destruct (decide (dependentUris args (Some (builtin (uriOf args))) = [])).
Qed.

(** X25: a dependent that is a name of [Object.prototype] is never
    reported missing on an item that has no own property of that name. *)
Theorem getMissingDependents_inherited (item : entity)
    (dependents fullDependents : option (list string)) (full : bool)
    (name : string) :
  name ∈ objectPrototypeNames →
  item !! name = None →
  name ∉ getMissingDependents (Some item) dependents fullDependents full.
Proof.
  intros Hin Hown. unfold getMissingDependents.
  assert (∀ names, name ∉ List.filter
                     (λ dep, isUndefinedOrNull (read item dep)) names)
    as Hfilter.
  { intros names. rewrite list_elem_of_In, List.filter_In.
    rewrite read_inherited by done. by intros [_ ?]. }
  destruct full; apply Hfilter.
Qed.

End Inherited.

Section InheritedOnSamples.

Local Existing Instance SampleEngine.standard.

Lemma ensureLoaded_inherited_uri_witness :
  ∃ evs : list event,
    run 1 (Sample.idle Sample.coldFoo)
      (ensureLoaded Sample.formatContext SampleViews.requestConstructor)
      Sample.emptyIndex
    = Some [evs] ∧
    stopLoading "constructor" ∈ dispatched evs ∧
    coldReads evs = [] ∧
    fetches evs = 0.
Proof.
  apply (ensureLoaded_inherited_uri Sample.formatContext 1
           (Sample.idle Sample.coldFoo) SampleViews.requestConstructor
           Sample.emptyIndex).
  - reflexivity.
  - by vm_compute; apply list_elem_of_here.
  - intros Hin. vm_compute in Hin.
    repeat (apply elem_of_cons in Hin as [[=]|Hin]).
    by apply elem_of_nil in Hin.
  - intros container [=].
  - by vm_compute.
  - lia.
Defined.

Lemma getMissingDependents_inherited_witness :
  "toString"
  ∉ getMissingDependents (Some Sample.bar)
      (Some ["toString"; "artists_uris"]) None false.
Proof.
  apply (getMissingDependents_inherited Sample.bar
           (Some ["toString"; "artists_uris"]) None false "toString").
  - apply list_elem_of_lookup. by exists 8.
  - by vm_compute.
Defined.

End InheritedOnSamples.

(** ** The selection of sections to import *)

Lemma indexOf_spec (name : string) (prev : list string) :
  (name ∈ prev ∧ (0 ≤ indexOf name prev)%Z)
  ∨ ((name ∉ prev) ∧ indexOf name prev = (-1)%Z).
Proof.
  induction prev as [|prevName rest IH]; cbn [indexOf].
  - right. split; [apply not_elem_of_nil | done].
  - destruct (String.eqb_spec prevName name) as [->|Hne].
    + left. split; [apply list_elem_of_here | done].
    + destruct IH as [[Hin Hpos]|[Hout Hneg]].
      * left. split; [by apply list_elem_of_further|].
        destruct (Z.ltb_spec (indexOf name rest) 0); lia.
      * right. rewrite Hneg. split; [|done].
        rewrite elem_of_cons. intros [->|?]; done.
Qed.

(** [onSelectedChanged] with the test of [indexOf] decided. *)
Lemma onSelectedChanged_decide (name : string) (prev : list string) :
  onSelectedChanged name prev
  = if decide (name ∈ prev)
    then List.filter (λ prevName, negb (String.eqb prevName name)) prev
    else prev ++ [name].
Proof.
  unfold onSelectedChanged.
  destruct (indexOf_spec name prev) as [[Hin Hpos]|[Hout Hneg]].
  - rewrite decide_True by done.
    by destruct (Z.ltb_spec (-1) (indexOf name prev)); [|lia].
  - rewrite decide_False by done. by rewrite Hneg.
Qed.

Lemma elem_of_filter_other (name other : string) (prev : list string) :
  other ∈ List.filter (λ prevName, negb (String.eqb prevName name)) prev
  ↔ other ∈ prev ∧ other ≠ name.
Proof.
  rewrite !list_elem_of_In, List.filter_In.
  destruct (String.eqb_spec other name) as [->|Hne]; cbn [negb];
    split; intros [? ?]; done.
Qed.

Lemma filter_other_id (name : string) (prev : list string) :
  name ∉ prev →
  List.filter (λ prevName, negb (String.eqb prevName name)) prev = prev.
Proof.
  induction prev as [|prevName rest IH]; [done|].
  rewrite not_elem_of_cons. intros [Hne Hrest]. cbn [List.filter].
  destruct (String.eqb_spec prevName name) as [->|_]; [done|].
  cbn [negb]. by rewrite IH.
Qed.

Lemma elem_of_onSelectedChanged (name other : string) (prev : list string) :
  other ∈ onSelectedChanged name prev
  ↔ if decide (other = name) then name ∉ prev else other ∈ prev.
Proof.
  rewrite onSelectedChanged_decide.
  destruct (decide (name ∈ prev)) as [Hin|Hout].
  - rewrite elem_of_filter_other. case_decide; subst; split; try done.
    + by intros [_ ?].
    + by intros [? _].
  - rewrite elem_of_app, list_elem_of_singleton.
    case_decide; subst; split; try done; auto.
    by intros [?|?].
Qed.

Lemma NoDup_List_filter {A} (f : A → bool) (l : list A) :
  NoDup l → NoDup (List.filter f l).
Proof.
  induction 1 as [|x l Hx _ IH]; cbn [List.filter]; [constructor|].
  destruct (f x); [|done]. constructor; [|done].
  rewrite list_elem_of_In, List.filter_In, <-list_elem_of_In. by intros [? _].
Qed.

Lemma NoDup_onSelectedChanged (name : string) (prev : list string) :
  NoDup prev → NoDup (onSelectedChanged name prev).
Proof.
  intros Hprev. rewrite onSelectedChanged_decide.
  destruct (decide (name ∈ prev)) as [Hin|Hout].
  - by apply NoDup_List_filter.
  - apply NoDup_app. split; [done|]. split; [|apply NoDup_singleton].
    intros x Hx ->%list_elem_of_singleton. done.
Qed.

(** X13: toggling a name changes the selection of that name and of no
    other: the name is selected afterwards exactly when it was not before,
    and every other name is selected exactly when it was. *)
Theorem onSelectedChanged_elem (name other : string) (prev : list string) :
  (name ∈ onSelectedChanged name prev ↔ name ∉ prev) ∧
  (other ≠ name → (other ∈ onSelectedChanged name prev ↔ other ∈ prev)).
Proof.
  split.
  - rewrite elem_of_onSelectedChanged. by rewrite decide_True.
  - intros Hne. rewrite elem_of_onSelectedChanged. by rewrite decide_False.
Qed.

(** X14: toggling a name twice gives the list back when the name was not
    selected; when it was, the name ends up last, all its occurrences
    taken out, and the others keep their order. *)
Theorem onSelectedChanged_twice (name : string) (prev : list string) :
  onSelectedChanged name (onSelectedChanged name prev)
  = if decide (name ∈ prev)
    then List.filter (λ prevName, negb (String.eqb prevName name)) prev
         ++ [name]
    else prev.
Proof.
  rewrite (onSelectedChanged_decide name prev).
  destruct (decide (name ∈ prev)) as [Hin|Hout].
  - rewrite onSelectedChanged_decide, decide_False; [done|].
    rewrite elem_of_filter_other. by intros [_ ?].
  - rewrite onSelectedChanged_decide, decide_True
      by (apply elem_of_app; right; apply list_elem_of_here).
    rewrite List.filter_app, filter_other_id by done.
    cbn [List.filter]. rewrite String.eqb_refl. cbn [negb].
    by rewrite app_nil_r.
Qed.

Lemma NoDup_toggles (names selected : list string) :
  NoDup selected →
  NoDup (foldl (λ sel name, onSelectedChanged name sel) selected names).
Proof.
  revert selected. induction names as [|name names IH]; intros selected Hsel.
  - done.
  - cbn [foldl]. by apply IH, NoDup_onSelectedChanged.
Qed.

(** X15: starting from the empty selection, no sequence of toggles ever
    puts a name into the selection twice. *)
Theorem selection_NoDup (names : list string) :
  NoDup (foldl (λ sel name, onSelectedChanged name sel) [] names).
Proof. apply NoDup_toggles, NoDup_nil_2. Qed.

Lemma elem_of_toggles (name : string) (names selected : list string) :
  bool_decide
    (name ∈ foldl (λ sel n, onSelectedChanged n sel) selected names)
  = xorb (bool_decide (name ∈ selected))
      (Nat.odd (length (filter (λ n, n = name) names))).
Proof.
  revert selected. induction names as [|n names IH]; intros selected.
  - cbn. by rewrite xorb_false_r.
  - cbn [foldl]. rewrite IH, filter_cons.
    destruct (decide (n = name)) as [->|Hne].
    + rewrite (bool_decide_ext _ (name ∉ selected))
        by (rewrite elem_of_onSelectedChanged; by rewrite decide_True).
      cbn [length]. rewrite Nat.odd_succ, <-Nat.negb_odd.
      rewrite bool_decide_not.
      by destruct (bool_decide (name ∈ selected)), (Nat.odd _).
    + rewrite (bool_decide_ext _ (name ∈ selected)); [done|].
      rewrite elem_of_onSelectedChanged. by rewrite decide_False.
Qed.

(** X16: after any sequence of toggles from the empty selection, a name
    is selected exactly when it was toggled an odd number of times. *)
Theorem selection_parity (name : string) (names : list string) :
  name ∈ foldl (λ sel n, onSelectedChanged n sel) [] names
  ↔ Nat.odd (length (filter (λ n, n = name) names)) = true.
Proof.
  rewrite <-(bool_decide_eq_true (name ∈ _)), elem_of_toggles.
  rewrite bool_decide_false by apply not_elem_of_nil. done.
Qed.

(** ** The submission of the import *)

Lemma pick_lookup (object : gmap string value) (paths : list string)
    (k : string) :
  pick object paths !! k = if decide (k ∈ paths) then object !! k else None.
Proof.
  unfold pick. case_decide as Hk.
  - destruct (object !! k) as [v|] eqn:Hget.
    + by apply map_lookup_filter_Some.
    + apply map_lookup_filter_None. by left.
  - apply map_lookup_filter_None. right. by intros v _.
Qed.

Lemma pick_get (object : gmap string value) (paths : list string)
    (k : string) :
  get (pick object paths) k
  = if decide (k ∈ paths) then get object k else VUndefined.
Proof. unfold get. rewrite pick_lookup. by case_decide. Qed.

Lemma truthy_get (object : gmap string value) (k : string) :
  truthy (get object k) = true →
  ∃ v, object !! k = Some v ∧ get object k = v.
Proof.
  unfold get. destruct (object !! k) as [v|]; [|done]. by exists v.
Qed.

Lemma elem_of_if_nil {A} (b : bool) (l : list A) (x : A) :
  x ∈ (if b then l else []) ↔ b = true ∧ x ∈ l.
Proof.
  destruct b; [by split; [|intros [_ ?]]|].
  rewrite elem_of_nil. by split; [|intros [? _]].
Qed.

Section Submit.

Variable i18n : string → string.

(** What is in [onSubmit], section by section. *)
Lemma elem_of_onSubmit (config : gmap string value)
    (selected : list string) (e : submitEvent) :
  let toImport := pick config selected in
  e ∈ onSubmit i18n config selected
  ↔ e = SubmitPreventDefault
    ∨ (truthy (get toImport "ui") = true
       ∧ e = SubmitDispatch (setUi (get toImport "ui")))
    ∨ (truthy (get toImport "spotify") = true
       ∧ e = SubmitDispatch
               (spotifyImportAuthorization
                  (member (get toImport "spotify") "authorization")
                  (member (get toImport "spotify") "me")))
    ∨ (truthy (get toImport "snapcast") = true
       ∧ (e = SubmitDispatch (snapcastSet (get toImport "snapcast"))
          ∨ e = SubmitSetTimeout snapcastConnect 100))
    ∨ (truthy (get toImport "lastfm") = true
       ∧ e = SubmitDispatch
               (lastfmImportAuthorization
                  (member (get toImport "lastfm") "authorization")
                  (member (get toImport "lastfm") "me")))
    ∨ (truthy (get toImport "genius") = true
       ∧ e = SubmitDispatch
               (geniusImportAuthorization
                  (member (get toImport "genius") "authorization")
                  (member (get toImport "genius") "me")))
    ∨ e = SubmitDispatch
            (createNotification (i18n "modal.shared_config.imported"))
    ∨ e = SubmitDispatch closeModal.
Proof.
  intros toImport. unfold onSubmit. fold toImport.
  rewrite !elem_of_app, !elem_of_if_nil, !elem_of_cons, !elem_of_nil.
  tauto.
Qed.

End Submit.

Section SubmitClaims.

Variable i18n : string → string.

(** X17: whatever is selected, [onSubmit] prevents the default, then
    dispatches at most five imports and one timer, and always ends with the
    notification and [closeModal]; with nothing selected it does only that. *)
Theorem onSubmit_always_closes (config : gmap string value)
    (selected : list string) :
  ∃ imports : list submitEvent,
    onSubmit i18n config selected
    = SubmitPreventDefault
      :: imports
      ++ [SubmitDispatch
            (createNotification (i18n "modal.shared_config.imported"));
          SubmitDispatch closeModal] ∧
    length imports ≤ 6 ∧
    (selected = [] → imports = []).
Proof.
  unfold onSubmit. eexists. split.
  { cbn [app]. rewrite !app_assoc. reflexivity. }
  split.
  - rewrite !length_app.
    repeat match goal with
           | |- context [if ?b then _ else _] => destruct b
           end; cbn [length]; lia.
  - intros ->.
    assert (∀ k, get (pick config []) k = VUndefined) as Hget.
    { intros k. rewrite pick_get. rewrite decide_False; [done|].
      apply not_elem_of_nil. }
    by rewrite !Hget.
Qed.

(** X18: when the selected names are sections of the configuration, each
    import is dispatched exactly for a section that is selected and holds a
    truthy value: [setUi] and [snapcastSet] with that value, the three
    authorizations with its [authorization] and [me]. *)
Theorem onSubmit_imports_selected (config : gmap string value)
    (selected : list string) :
  (∀ name, name ∈ selected → is_Some (config !! name)) →
  (∀ v, SubmitDispatch (setUi v) ∈ onSubmit i18n config selected
        ↔ "ui" ∈ selected ∧ config !! "ui" = Some v ∧ truthy v = true) ∧
  (∀ v, SubmitDispatch (snapcastSet v) ∈ onSubmit i18n config selected
        ↔ "snapcast" ∈ selected ∧ config !! "snapcast" = Some v
          ∧ truthy v = true) ∧
  (∀ a m,
     SubmitDispatch (spotifyImportAuthorization a m)
     ∈ onSubmit i18n config selected
     ↔ "spotify" ∈ selected
       ∧ ∃ v, config !! "spotify" = Some v ∧ truthy v = true
              ∧ a = member v "authorization" ∧ m = member v "me") ∧
  (∀ a m,
     SubmitDispatch (lastfmImportAuthorization a m)
     ∈ onSubmit i18n config selected
     ↔ "lastfm" ∈ selected
       ∧ ∃ v, config !! "lastfm" = Some v ∧ truthy v = true
              ∧ a = member v "authorization" ∧ m = member v "me") ∧
  (∀ a m,
     SubmitDispatch (geniusImportAuthorization a m)
     ∈ onSubmit i18n config selected
     ↔ "genius" ∈ selected
       ∧ ∃ v, config !! "genius" = Some v ∧ truthy v = true
              ∧ a = member v "authorization" ∧ m = member v "me").
Proof.
  intros _.
  assert (∀ k v, (truthy (get (pick config selected) k) = true
                  ∧ v = get (pick config selected) k)
                 ↔ k ∈ selected ∧ config !! k = Some v ∧ truthy v = true)
    as Hsection.
  { intros k v. rewrite pick_get. unfold get. case_decide as Hk.
    - destruct (config !! k) as [v'|]; simpl.
      + split; [by intros [? ->] | by intros (_ & [= ->] & ?)].
      + split; [by intros [? _] | by intros (_ & ? & _)].
    - split; [by intros [? _] | by intros [? _]]. }
  assert (∀ k a m,
            (truthy (get (pick config selected) k) = true
             ∧ a = member (get (pick config selected) k) "authorization"
             ∧ m = member (get (pick config selected) k) "me")
            ↔ k ∈ selected
              ∧ ∃ v, config !! k = Some v ∧ truthy v = true
                     ∧ a = member v "authorization" ∧ m = member v "me")
    as Hauth.
  { intros k a m. split.
    - intros (Htruthy & -> & ->).
      destruct (proj1 (Hsection k _) (conj Htruthy eq_refl))
        as (? & ? & ?).
      split; [done|]. by eexists.
    - intros (Hk & v & Hget & Htruthy & -> & ->).
      destruct (proj2 (Hsection k v) (conj Hk (conj Hget Htruthy)))
        as [? ->]. done. }
  split; [|split; [|split; [|split]]]; intros; split.
  all: try (intros Hin; apply elem_of_onSubmit in Hin; cbn zeta in Hin;
            first [ apply Hsection | apply Hauth ];
            repeat destruct Hin as [Hin|Hin];
            try discriminate; try (by destruct Hin as [? [=]]);
            try (by destruct Hin as [? [[=]|[=]]]);
            destruct Hin as [? [= -> ]] || destruct Hin as [? [= -> ->]];
            done).
  all: intros Hsel; apply elem_of_onSubmit; cbn zeta;
       first [ apply Hsection in Hsel as [? ->]
             | apply Hauth in Hsel as (? & -> & ->) ]; tauto.
Qed.

(** X19: [onSubmit] never dispatches the snapcast [connect] itself; it
    sets one timer, of 100 ms, that will, and only when the snapcast section
    is selected and truthy. *)
Theorem onSubmit_connects_later (config : gmap string value)
    (selected : list string) :
  (∀ name, name ∈ selected → is_Some (config !! name)) →
  (SubmitDispatch snapcastConnect ∉ onSubmit i18n config selected) ∧
  ∀ a ms,
    SubmitSetTimeout a ms ∈ onSubmit i18n config selected
    ↔ a = snapcastConnect ∧ ms = 100 ∧ "snapcast" ∈ selected
      ∧ truthy (get config "snapcast") = true.
Proof.
  intros _. split.
  - intros Hin. apply elem_of_onSubmit in Hin. cbn zeta in Hin.
    repeat destruct Hin as [Hin|Hin]; try discriminate;
      try (by destruct Hin as [? [=]]); by destruct Hin as [? [[=]|[=]]].
  - intros a ms. rewrite elem_of_onSubmit. cbn zeta. split.
    + intros Hin.
      repeat destruct Hin as [Hin|Hin]; try discriminate;
        try (by destruct Hin as [? [=]]).
      destruct Hin as [Htruthy [[=]|[= -> ->]]].
      rewrite pick_get in Htruthy. by case_decide.
    + intros (-> & -> & Hsel & Htruthy).
      do 3 right. left. rewrite pick_get, decide_True by done. tauto.
Qed.

Lemma onSubmit_ranks (config : gmap string value) (selected : list string) :
  StronglySorted lt (stepRank <$> onSubmit i18n config selected).
Proof.
  unfold onSubmit.
  destruct (truthy (get (pick config selected) "ui"));
    destruct (truthy (get (pick config selected) "spotify"));
    destruct (truthy (get (pick config selected) "snapcast"));
    destruct (truthy (get (pick config selected) "lastfm"));
    destruct (truthy (get (pick config selected) "genius"));
    cbn [app fmap list_fmap stepRank];
    repeat (apply SSorted_cons;
            [|repeat (apply List.Forall_cons; [lia|]); apply List.Forall_nil]);
    apply SSorted_nil.
Qed.

(** X20: only which names are selected matters, not the order in which
    they were ticked nor how often a name is listed: two selections with
    the same names give the same steps, and the steps always come in the
    order of the source, each at most once: [preventDefault], ui, spotify,
    snapcast and its timer, lastfm, genius, the notification,
    [closeModal]. *)
Theorem onSubmit_selection_order (config : gmap string value)
    (selected selected' : list string) :
  (∀ name, name ∈ selected → is_Some (config !! name)) →
  (∀ name, name ∈ selected ↔ name ∈ selected') →
  onSubmit i18n config selected = onSubmit i18n config selected' ∧
  StronglySorted lt (stepRank <$> onSubmit i18n config selected).
Proof.
  intros _ Hsame. split; [|apply onSubmit_ranks]. unfold onSubmit.
  replace (pick config selected') with (pick config selected); [done|].
  apply map_eq. intros k. rewrite !pick_lookup.
  destruct (decide (k ∈ selected)) as [Hk|Hk].
  - by rewrite decide_True by (by apply Hsame).
  - by rewrite decide_False by (by rewrite <-Hsame).
Qed.

End SubmitClaims.

(** ** The library views *)

Lemma loadedUris_loadLibrary (libraryType : string) (forceRefetch : bool)
    (uris : list value) :
  loadedUris ((λ uri, loadLibrary uri libraryType forceRefetch) <$> uris)
  = uris.
Proof. induction uris as [|u uris IH]; [done|]. simpl. by f_equal. Qed.

Section Views.

Variable i18n : string → string.
Variable libraryType : string.
Variable titlePath : string.
Variable SORT_KEY : string.

(** X21: [refresh] loads the URIs that [componentDidMount] loads, in the
    same order; every load of [refresh] forces the refetch and no load of
    [componentDidMount] does, and all are for the view's library type. *)
Theorem refresh_loads_as_mount (props : ViewProps) :
  loadedUris (refresh libraryType props)
  = loadedUris (componentDidMount i18n libraryType titlePath props) ∧
  Forall (λ c, ∀ u t force, c = loadLibrary u t force →
                            t = libraryType ∧ force = true)
    (refresh libraryType props) ∧
  Forall (λ c, ∀ u t force, c = loadLibrary u t force →
                            t = libraryType ∧ force = false)
    (componentDidMount i18n libraryType titlePath props).
Proof.
  unfold refresh, componentDidMount, getLibraries. cbn [default].
  split; [|split].
  - change (loadedUris (hideContextMenu :: ?l)) with (loadedUris l).
    change (loadedUris (setWindowTitle ?t :: ?l)) with (loadedUris l).
    by rewrite !loadedUris_loadLibrary.
  - constructor; [done|]. apply Forall_fmap, Forall_true.
    by intros u u' t force [= _ <- <-].
  - constructor; [done|]. apply Forall_fmap, Forall_true.
    by intros u u' t force [= _ <- <-].
Qed.

(** X22: [componentDidUpdate] loads nothing exactly when the source is
    the one of the previous props, or when the source is [all] and there is
    no provider; a change of the providers alone never reloads. *)
Theorem componentDidUpdate_nil (props prevProps : ViewProps) :
  componentDidUpdate libraryType props prevProps = []
  ↔ source props = source prevProps
    ∨ (source props = "all" ∧ providers props = []).
Proof.
  unfold componentDidUpdate, getLibraries.
  destruct (String.eqb_spec (source props) (source prevProps)) as [Heq|Hne];
    cbn [negb].
  - split; [by left | done].
  - destruct (String.eqb_spec (source props) "all") as [Hall|Hone].
    + split.
      * intros Hnil. right. split; [done|].
        destruct (providers props); [done|discriminate].
      * intros [?|[_ ->]]; done.
    + split; [discriminate|]. intros [?|[? _]]; done.
Qed.

(** X23: when the props carry the sort that [onSortChange] has set,
    choosing the same field again sets the opposite direction; a field
    other than the current one is set ascending; and [null] on [null] stays
    ascending, whatever the direction was. *)
Theorem onSortChange_again (props : ViewProps) (field : string) :
  onSortChange SORT_KEY
    (withSort props (Some field) (sortChangeReverse props (Some field)))
    (Some field)
  = [setSort SORT_KEY (Some field)
       (negb (sortChangeReverse props (Some field)));
     hideContextMenu] ∧
  (sortField props ≠ Some field →
   onSortChange SORT_KEY props (Some field)
   = [setSort SORT_KEY (Some field) false; hideContextMenu]) ∧
  ∀ reverse : bool,
    onSortChange SORT_KEY (withSort props None reverse) None
    = [setSort SORT_KEY None false; hideContextMenu].
Proof.
  unfold onSortChange, sortChangeReverse. cbn [withSort sortField sortReverse].
  split; [|split].
  - by rewrite (decide_True (P := Some field = Some field)).
  - intros Hother. by rewrite decide_False.
  - done.
Qed.

End Views.
(** *** On the sample data *)

Lemma onSelectedChanged_elem_witness :
  ("ui" ∈ onSelectedChanged "ui" ["spotify"]) ∧
  ("spotify" ∈ onSelectedChanged "ui" ["spotify"]).
Proof.
  destruct (onSelectedChanged_elem "ui" "spotify" ["spotify"])
    as [Hname Hother].
  split.
  - apply Hname. by intros [?|?%elem_of_nil]%elem_of_cons.
  - apply Hother; [done|]. apply list_elem_of_here.
Defined.

Lemma onSubmit_always_closes_witness :
  onSubmit SampleViews.i18n SampleViews.sharedConfig []
  = [SubmitPreventDefault;
     SubmitDispatch (createNotification "modal.shared_config.imported");
     SubmitDispatch closeModal].
Proof.
  destruct (onSubmit_always_closes SampleViews.i18n SampleViews.sharedConfig
              [])
    as (imports & -> & _ & Hnone).
  by rewrite (Hnone eq_refl).
Defined.

Lemma onSubmit_imports_selected_witness :
  SubmitDispatch (setUi (VObj {["theme" := VStr "dark"]}))
  ∈ onSubmit SampleViews.i18n SampleViews.sharedConfig ["snapcast"; "ui"].
Proof.
  destruct (onSubmit_imports_selected SampleViews.i18n
              SampleViews.sharedConfig ["snapcast"; "ui"])
    as (Hui & _).
  - intros name [->|[->|[]%elem_of_nil]%elem_of_cons]%elem_of_cons;
      by eexists.
  - apply Hui. split; [|by split].
    apply list_elem_of_further, list_elem_of_here.
Defined.

Lemma onSubmit_connects_later_witness :
  SubmitSetTimeout snapcastConnect 100
  ∈ onSubmit SampleViews.i18n SampleViews.sharedConfig ["snapcast"; "ui"].
Proof.
  destruct (onSubmit_connects_later SampleViews.i18n
              SampleViews.sharedConfig ["snapcast"; "ui"])
    as (_ & Htimer).
  - intros name [->|[->|[]%elem_of_nil]%elem_of_cons]%elem_of_cons;
      by eexists.
  - apply Htimer. split; [done|]. split; [done|].
    split; [apply list_elem_of_here | by vm_compute].
Defined.

Lemma onSubmit_selection_order_witness :
  onSubmit SampleViews.i18n SampleViews.sharedConfig ["snapcast"; "ui"]
  = onSubmit SampleViews.i18n SampleViews.sharedConfig
      ["ui"; "snapcast"; "ui"] ∧
  stepRank
    <$> onSubmit SampleViews.i18n SampleViews.sharedConfig ["snapcast"; "ui"]
  = [0; 1; 3; 4; 7; 8].
Proof.
  destruct (onSubmit_selection_order SampleViews.i18n
              SampleViews.sharedConfig
              ["snapcast"; "ui"] ["ui"; "snapcast"; "ui"]) as [Hsame _].
  - intros name [->|[->|[]%elem_of_nil]%elem_of_cons]%elem_of_cons;
      by eexists.
  - intros name. rewrite !elem_of_cons, !elem_of_nil. tauto.
  - split; [exact Hsame | by vm_compute].
Defined.

(** [Playlists], sorted by name: the name again, then the owner. *)
Lemma onSortChange_again_witness :
  onSortChange Playlists.SORT_KEY
    (withSort SampleViews.allSources (Some "name") true) (Some "name")
  = [setSort "library_playlists" (Some "name") false; hideContextMenu] ∧
  onSortChange Playlists.SORT_KEY SampleViews.allSources (Some "owner")
  = [setSort "library_playlists" (Some "owner") false; hideContextMenu].
Proof.
  destruct (onSortChange_again Playlists.SORT_KEY SampleViews.allSources
              "name") as (Hagain & _).
  destruct (onSortChange_again Playlists.SORT_KEY SampleViews.allSources
              "owner") as (_ & Hother & _).
  split; [exact Hagain | by apply Hother].
Defined.

(** [Playlists] with both providers, and [LibraryAlbums] after the source
    went from one provider to all. *)
Lemma refresh_loads_as_mount_witness :
  loadedUris (refresh Playlists.libraryType SampleViews.allSources)
  = [VStr "m3u:playlists"; VStr "spotify:library:playlists"] ∧
  loadedUris
    (componentDidMount SampleViews.i18n Playlists.libraryType
       Playlists.titlePath SampleViews.allSources)
  = [VStr "m3u:playlists"; VStr "spotify:library:playlists"].
Proof.
  destruct (refresh_loads_as_mount SampleViews.i18n Playlists.libraryType
              Playlists.titlePath SampleViews.allSources) as (Hsame & _).
  split; [|rewrite <-Hsame]; by vm_compute.
Defined.

Lemma componentDidUpdate_nil_witness :
  componentDidUpdate LibraryAlbums.libraryType SampleViews.oneSource
    (withSort SampleViews.oneSource (Some "name") true)
  = [].
Proof.
  apply (componentDidUpdate_nil LibraryAlbums.libraryType
           SampleViews.oneSource
           (withSort SampleViews.oneSource (Some "name") true)).
  by left.
Defined.
